(** * itch: the install reactor, the upload listing and the app-bundle scan

    A shallow embedding of three pieces of the itch desktop client:

    - [appsrc/util/api.ts]: [ensureArray], [Client.request] and
      [AuthenticatedClient.listUploads];
    - [appsrc/reactors/tasks/queue-game.ts]: [startCave] and the reactor
      registered on [actions.queueGame];
    - the macOS [configure] step that scans an install folder for app bundles.

    Asynchronous code is written in a small monad that records, in order, the
    tasks a reactor starts and the actions it dispatches.  Collaborators that
    live outside these files (the task runner, the path maker, the URL parser,
    the network, the file system) are fields of a class, so that every
    statement below holds whatever they answer. *)

From stdpp Require Import base option list gmap strings.
From Stdlib Require Import ZArith String List Ascii Bool Lia DecimalString.
Import ListNotations.

Set Warnings "-register-all".

Local Open Scope Z_scope.
Local Open Scope string_scope.

(** * Part I: the programs *)

(** ** JavaScript strings *)

Module JsString.

(** [s.indexOf(needle)]: position of the first occurrence, [-1] if none. *)
Definition indexOf (s needle : string) : Z :=
  match String.index 0 needle s with
  | Some n => Z.of_nat n
  | None => -1
  end.

(** [s] has [needle] as a contiguous substring. *)
Definition contains_substring (s needle : string) : Prop :=
  exists pre post : string, s = pre ++ needle ++ post.

(** [s.split(sep)] for a one-character separator: [cur] holds, reversed, the
    characters of the piece being read. *)
Fixpoint split_go (sep : ascii) (cur : string) (s : string) : list string :=
  match s with
  | EmptyString => [String.rev cur]
  | String c rest =>
      if Ascii.eqb c sep then String.rev cur :: split_go sep EmptyString rest
      else split_go sep (String c cur) rest
  end.

Definition split (sep : ascii) (s : string) : list string :=
  split_go sep EmptyString s.

(** Truthiness of a string that may be missing: [undefined] and the empty
    string are falsy. *)
Definition truthy (o : option string) : bool :=
  match o with
  | Some s => negb (String.eqb s "")
  | None => false
  end.

(** [o || ""] *)
Definition orEmpty (o : option string) : string :=
  if truthy o then default "" o else "".

(** Decimal rendering of an integer, as in a template literal (JavaScript
    switches to exponent notation from 1e21 on; ids stay far below). *)
Definition ofNumber (n : Z) : string := NilZero.string_of_int (Z.to_int n).

End JsString.

(** ** [appsrc/util/api.ts] *)

Module Api.

(** A JSON value as the client sees it after parsing.  Numbers are integers:
    only whether a number is zero matters below. *)
Inductive value :=
| VUndefined
| VNull
| VBool (b : bool)
| VNumber (n : Z)
| VString (s : string)
| VArray (items : list value)
| VObject (fields : gmap string value).

(** [!!v] *)
Definition truthy (v : value) : bool :=
  match v with
  | VUndefined | VNull => false
  | VBool b => b
  | VNumber n => negb (Z.eqb n 0)
  | VString s => negb (String.eqb s "")
  | VArray _ | VObject _ => true
  end.

(** [v === null || v === undefined] *)
Definition nullish (v : value) : bool :=
  match v with
  | VUndefined | VNull => true
  | _ => false
  end.

(** [v.length]; reading a property of [undefined] or [null] raises a
    [TypeError], which is [None] here. *)
Definition length_of (v : value) : option value :=
  match v with
  | VUndefined | VNull => None
  | VBool _ | VNumber _ => Some VUndefined
  | VString s => Some (VNumber (Z.of_nat (String.length s)))
  | VArray items => Some (VNumber (Z.of_nat (List.length items)))
  | VObject fields => Some (default VUndefined (fields !! "length"))
  end.

(** [ensureArray], api.ts 312-317.  [None] would be an exception. *)
Definition ensureArray (v : value) : option value :=
  if negb (truthy v) then Some (VArray [])
  else
    match length_of v with
    | None => None
    | Some len => if negb (truthy len) then Some (VArray []) else Some v
    end.

(** [v] has no [length], or a falsy one: told from the shape of [v]. *)
Definition lengthless (v : value) : bool :=
  match v with
  | VUndefined | VNull | VBool _ | VNumber _ => true
  | VString s => String.eqb s ""
  | VArray items => match items with [] => true | _ :: _ => false end
  | VObject fields => negb (truthy (default VUndefined (fields !! "length")))
  end.

(** [Array.isArray(v)] *)
Definition isArray (v : value) : bool :=
  match v with
  | VArray _ => true
  | _ => false
  end.

(** What [net.request] resolves with.  The itch.io API answers with a JSON
    object, so [body] is the map of its fields. *)
Record response := { statusCode : Z; body : gmap string value }.

Inductive failure :=
| NetworkFailure (message : string)
| HttpError (status : Z) (path : string)
| ApiError (errors : value)
| TypeError (message : string)
| TransformerFailure (key : string).

Definition result (A : Type) : Type := failure + A.

Definition ITransformerMap := list (string * (value -> option value)).

(** The collaborators of the client: the HTTP layer ([util/net]) and
    [camelifyObject] ([util/format]). *)
Class Net := {
  net_request : string -> string -> gmap string value -> result response;
  camelifyObject : gmap string value -> gmap string value;
  rootUrl : string
}.

(** The loop of [Client.request] over the transformers, api.ts 94-99:
    [camelBody[key] = transformers[key](camelBody[key])]. *)
Fixpoint applyTransformers (transformers : ITransformerMap)
    (camelBody : gmap string value) : result (gmap string value) :=
  match transformers with
  | [] => inr camelBody
  | (key, f) :: rest =>
      match f (default VUndefined (camelBody !! key)) with
      | None => inl (TransformerFailure key)
      | Some v => applyTransformers rest (<[key := v]> camelBody)
      end
  end.

(** [new ApiError(errors)], api.ts 337-348: the constructor calls
    [errors.join(", ")], which only an array has. *)
Definition newApiError (errors : value) : failure :=
  if isArray errors then ApiError errors
  else TypeError "errors.join is not a function".

(** [Client.request], api.ts 71-102 (the cooldown and the log only take
    time). *)
Definition request `{Net} (method path : string) (data : gmap string value)
    (transformers : ITransformerMap) : result (gmap string value) :=
  let uri := rootUrl ++ path in
  match net_request method uri data with
  | inl e => inl e
  | inr resp =>
      if negb (Z.eqb (statusCode resp) 200) then inl (HttpError (statusCode resp) path)
      else
        let errors := default VUndefined (body resp !! "errors") in
        if truthy errors then inl (newApiError errors)
        else applyTransformers transformers (camelifyObject (body resp))
  end.

Record IDownloadKey := { dk_id : Z }.

(** [AuthenticatedClient.request], api.ts 178-181. *)
Definition authRequest `{Net} (key : string) (method path : string)
    (data : gmap string value) (transformers : ITransformerMap)
  : result (gmap string value) :=
  let url := "/" ++ key ++ path in
  request method url data transformers.

(** [AuthenticatedClient.listUploads], api.ts 235-244. *)
Definition listUploads `{Net} (key : string) (downloadKey : option IDownloadKey)
    (gameID : Z) (extras : gmap string value) : result (gmap string value) :=
  match downloadKey with
  | Some dk =>
      authRequest key "get"
        ("/download-key/" ++ JsString.ofNumber (dk_id dk) ++ "/uploads")
        extras [("uploads", ensureArray)]
  | None =>
      authRequest key "get"
        ("/game/" ++ JsString.ofNumber gameID ++ "/uploads")
        extras [("uploads", ensureArray)]
  end.

(** The path [listUploads] asks for. *)
Definition uploadsPath (key : string) (downloadKey : option IDownloadKey)
    (gameID : Z) : string :=
  match downloadKey with
  | Some dk => "/" ++ key ++ "/download-key/" ++ JsString.ofNumber (dk_id dk) ++ "/uploads"
  | None => "/" ++ key ++ "/game/" ++ JsString.ofNumber gameID ++ "/uploads"
  end.

End Api.

(** ** [appsrc/reactors/tasks/queue-game.ts] *)

Module QueueGame.

Import JsString.

(** *** Records of [types] the reactor reads *)

Record IGameRecord := { game_id : Z; game_title : string }.

Record ICaveRecord := { cave_id : string; cave_game : IGameRecord }.

Record IUploadRecord := {
  upload_id : Z;
  filename : option string;
  displayName : option string;
  size : Z
}.

Abbreviation IDownloadKey := Api.IDownloadKey.

Record IFindUploadResult := {
  uploads : list IUploadRecord;
  downloadKey : option IDownloadKey
}.

Record IExtraOpts := {
  eo_password : option string;
  eo_secret : option string
}.

(** [{}] *)
Definition noExtraOpts : IExtraOpts :=
  {| eo_password := None; eo_secret := None |}.

(** The payload of a [QUEUE_GAME] action: [IQueueGamePayload] of
    [constants/action-types.ts] declares [game], [pickedUpload?] and
    [extraOpts?]; [p_password] and [p_secret] are the two top-level fields
    the pick-upload buttons add to it (lines 159-160). *)
Record IQueueGamePayload := {
  p_game : IGameRecord;
  p_extraOpts : option IExtraOpts;
  p_pickedUpload : option Z;
  p_password : option string;
  p_secret : option string
}.

(** *** Tasks *)

(** The two descriptors handed to [startTask]. *)
Inductive ITask :=
| LaunchTask (gameId : Z) (cave : ICaveRecord) (extraOpts : IExtraOpts)
| FindUploadTask (gameId : Z) (game : IGameRecord)
    (password secret : option string).

Definition task_name (t : ITask) : string :=
  match t with
  | LaunchTask _ _ _ => "launch"
  | FindUploadTask _ _ _ _ => "find-upload"
  end.

(** An error a task ended with: its [reason] field, if any, and what
    [String(err)] gives. *)
Record ITaskError := { reason : option string; as_string : string }.

(** The [{err, result}] pair [startTask] resolves with. *)
Record ITaskResult := {
  err : option ITaskError;
  result : option IFindUploadResult
}.

(** *** Actions *)

Inductive I18nArg :=
| ArgString (s : string)
| ArgError (e : ITaskError).

(** A localized string: [["key", {name: value, ...}]]. *)
Record ILocalizedString := {
  i18n_key : string;
  i18n_vars : list (string * I18nArg)
}.

Definition i18n (key : string) : ILocalizedString :=
  {| i18n_key := key; i18n_vars := [] |}.

(** What [makeUploadButton] returns: the properties of the button. *)
Definition IUploadButton := list (string * string).

Inductive IModalButton (A : Type) :=
| NamedButton (name : string)
| ActionButton (label : ILocalizedString) (icon : string) (action : A).
Arguments NamedButton {A} name.
Arguments ActionButton {A} label icon action.

Record IBigButton (A : Type) := {
  bb_base : IUploadButton;
  bb_action : A
}.
Arguments bb_base {A} _.
Arguments bb_action {A} _.

Record IModal (A : Type) := {
  modal_title : ILocalizedString;
  modal_message : ILocalizedString;
  modal_detail : option ILocalizedString;
  modal_bigButtons : list (IBigButton A);
  modal_buttons : list (IModalButton A)
}.
Arguments modal_title {A} _.
Arguments modal_message {A} _.
Arguments modal_detail {A} _.
Arguments modal_bigButtons {A} _.
Arguments modal_buttons {A} _.

Record IHistoryOption (A : Type) := {
  ho_label : ILocalizedString;
  ho_action : A
}.
Arguments ho_label {A} _.
Arguments ho_action {A} _.

Record IHistoryItem (A : Type) := {
  hi_label : ILocalizedString;
  hi_detail : string;
  hi_options : list (IHistoryOption A)
}.
Arguments hi_label {A} _.
Arguments hi_detail {A} _.
Arguments hi_options {A} _.

Record IQueueDownload := {
  dl_game : IGameRecord;
  dl_upload : IUploadRecord;
  dl_handPicked : bool;
  dl_totalSize : Z;
  dl_destPath : string;
  dl_downloadKey : option IDownloadKey;
  dl_reason : string;
  dl_password : option string;
  dl_secret : option string
}.

(** The actions this reactor receives or dispatches. *)
Inductive Action :=
| QueueGame (payload : IQueueGamePayload)
| OpenModal (modal : IModal Action)
| QueueDownload (download : IQueueDownload)
| QueueHistoryItem (item : IHistoryItem Action).

(** *** The store *)

Record ITabData := { tab_path : option string }.

(** The part of the state the reactor reads.  [tabData] lists the tabs in
    the order in which [Object.keys(tabData)] yields their ids. *)
Record IState := {
  cavesByGameId : gmap Z ICaveRecord;
  tabData : list (string * ITabData)
}.

(** *** The reactor monad *)

(** What a reactor does to its surroundings. *)
Inductive Event :=
| Started (task : ITask)
| Dispatched (action : Action).

(** A run: the value it ends with ([None] when it throws) and the events it
    caused, oldest first. *)
Definition Reactor (A : Type) : Type := (option A * list Event)%type.

#[global] Instance reactor_ret : MRet Reactor := fun A a => (Some a, []).

#[global] Instance reactor_bind : MBind Reactor := fun A B f m =>
  match m with
  | (Some a, log) => let '(r, log') := f a in (r, (log ++ log')%list)
  | (None, log) => (None, log)
  end.

Definition throw {A : Type} : Reactor A := (None, []).

(** [store.dispatch(action)] *)
Definition dispatch (action : Action) : Reactor unit :=
  (Some tt, [Dispatched action]).

Definition events {A : Type} (r : Reactor A) : list Event := snd r.

Definition returned {A : Type} (r : Reactor A) : option A := fst r.

(** The actions dispatched during a run, in order. *)
Definition dispatched {A : Type} (r : Reactor A) : list Action :=
  omap (fun e => match e with Dispatched a => Some a | Started _ => None end)
       (events r).

(** The tasks started during a run, in order. *)
Definition started {A : Type} (r : Reactor A) : list ITask :=
  omap (fun e => match e with Started t => Some t | Dispatched _ => None end)
       (events r).

Definition is_QueueDownload (a : Action) : bool :=
  match a with QueueDownload _ => true | _ => false end.

Definition is_OpenModal (a : Action) : bool :=
  match a with OpenModal _ => true | _ => false end.

(** *** Collaborators *)

(** What [querystring.parse(urlParser.parse(path).query)] yields. *)
Record IQuery := { q_secret : option string; q_password : option string }.

Class Collaborators := {
  (** what awaiting [startTask(store, descriptor)] resolves with *)
  task_outcome : ITask -> ITaskResult;
  (** [pathmaker.downloadPath] *)
  downloadPath : IUploadRecord -> string;
  (** [makeUploadButton] *)
  makeUploadButton : IUploadRecord -> IUploadButton;
  (** [urlParser.parse] followed by [querystring.parse] *)
  parseQuery : string -> IQuery;
  (** [process.platform] *)
  platform : string;
  (** [os.isWin64()] *)
  isWin64 : bool
}.

(** [await startTask(store, descriptor)] *)
Definition startTask `{Collaborators} (t : ITask) : Reactor ITaskResult :=
  (Some (task_outcome t), [Started t]).

(** *** [startCave], lines 28-49 *)

Definition startCave `{Collaborators} (game : IGameRecord) (cave : ICaveRecord)
    (extraOpts : IExtraOpts) : Reactor unit :=
  r ← startTask (LaunchTask (game_id (cave_game cave)) cave extraOpts);
  match err r with
  | Some e =>
      dispatch (QueueHistoryItem {|
        hi_label := {| i18n_key := "game.install.could_not_launch";
                       i18n_vars := [("title", ArgString (game_title game))] |};
        hi_detail := if truthy (reason e) then default "" (reason e)
                     else "" ++ as_string e;
        hi_options := [
          {| ho_label := i18n "game.install.try_again";
             ho_action := QueueGame {| p_game := game;
                                       p_extraOpts := None;
                                       p_pickedUpload := None;
                                       p_password := None;
                                       p_secret := None |} |}
        ]
      |})
  | None => mret tt
  end.

(** *** The password and secret of an open tab, lines 66-81 *)

(** Line 68 is an ordinary string literal, not a template. *)
Definition pathStart : string := "games/${game.id}".

Definition scanTab `{Collaborators} (acc : option string * option string)
    (tab : string * ITabData) : option string * option string :=
  let '(password, secret) := acc in
  let data := snd tab in
  if truthy (tab_path data)
     && Z.eqb (indexOf (default "" (tab_path data)) pathStart) 0
  then
    let query := parseQuery (default "" (tab_path data)) in
    let secret := if truthy (q_secret query) then q_secret query else secret in
    let password :=
      if truthy (q_password query) then q_password query else password in
    (password, secret)
  else (password, secret).

(** The [for] loop over [Object.keys(tabData)]: the pair is
    [(password, secret)]. *)
Definition scanTabs `{Collaborators} (tabs : list (string * ITabData))
    (password secret : option string) : option string * option string :=
  fold_left scanTab tabs (password, secret).

(** *** Choosing among the uploads, lines 107-144 *)

(** [where(uploads, {id: pickedUpload})] under [if (pickedUpload)]: a
    number is truthy unless it is zero. *)
Definition pickUpload (pickedUpload : option Z) (uploads : list IUploadRecord)
  : list IUploadRecord :=
  match pickedUpload with
  | Some picked =>
      if negb (Z.eqb picked 0)
      then List.filter (fun u => Z.eqb (upload_id u) picked) uploads
      else uploads
  | None => uploads
  end.

Definition uploadContainsString (upload : IUploadRecord) (needle : string)
  : bool :=
  negb (Z.eqb (indexOf (orEmpty (filename upload)) needle) (-1))
  || negb (Z.eqb (indexOf (orEmpty (displayName upload)) needle) (-1)).

(** The filename or the display name of [upload] (empty when missing) has
    [needle] as a substring. *)
Definition mentions (upload : IUploadRecord) (needle : string) : Prop :=
  contains_substring (default "" (filename upload)) needle
  \/ contains_substring (default "" (displayName upload)) needle.

Fixpoint anyUploadContainsString (candidates : list IUploadRecord)
    (needle : string) : bool :=
  match candidates with
  | [] => false
  | upload :: rest =>
      if uploadContainsString upload needle then true
      else anyUploadContainsString rest needle
  end.

(** Lines 112-144. *)
Definition sniffPlatforms `{Collaborators} (uploads : list IUploadRecord)
  : list IUploadRecord :=
  if Z.ltb 1 (Z.of_nat (List.length uploads)) && String.eqb platform "win32"
  then
    if isWin64 then
      if anyUploadContainsString uploads "64"
      then List.filter (fun u => negb (uploadContainsString u "32")) uploads
      else uploads
    else
      if anyUploadContainsString uploads "32"
      then List.filter (fun u => negb (uploadContainsString u "64")) uploads
      else uploads
  else uploads.

(** The candidates left when line 146 is reached. *)
Definition resolveUploads `{Collaborators} (pickedUpload : option Z)
    (uploads : list IUploadRecord) : list IUploadRecord :=
  sniffPlatforms (pickUpload pickedUpload uploads).

(** *** The three outcomes, lines 146-199 *)

(** The "try again"/"ok" buttons of lines 95-102 and 190-197. *)
Definition retryButtons (action : Action) : list (IModalButton Action) :=
  [ ActionButton (i18n "game.install.try_again") "repeat" action;
    NamedButton "ok" ].

Definition pickButton `{Collaborators} (payload : IQueueGamePayload)
    (password secret : option string) (upload : IUploadRecord)
  : IBigButton Action :=
  {| bb_base := makeUploadButton upload;
     bb_action := QueueGame {| p_game := p_game payload;
                               p_extraOpts := p_extraOpts payload;
                               p_pickedUpload := Some (upload_id upload);
                               p_password := password;
                               p_secret := secret |} |}.

Definition pickUploadModal `{Collaborators} (payload : IQueueGamePayload)
    (password secret : option string) (uploads : list IUploadRecord)
  : IModal Action :=
  let title := game_title (p_game payload) in
  {| modal_title := {| i18n_key := "pick_install_upload.title";
                       i18n_vars := [("title", ArgString title)] |};
     modal_message := {| i18n_key := "pick_install_upload.message";
                         i18n_vars := [("title", ArgString title)] |};
     modal_detail := Some (i18n "pick_install_upload.detail");
     modal_bigButtons := List.map (pickButton payload password secret) uploads;
     modal_buttons := [NamedButton "cancel"] |}.

Definition noUploadsModal (game : IGameRecord) (action : Action)
  : IModal Action :=
  {| modal_title := {| i18n_key := "game.install.no_uploads_available.message";
                       i18n_vars := [("title", ArgString (game_title game))] |};
     modal_message := {| i18n_key := "game.install.no_uploads_available.message";
                         i18n_vars := [("title", ArgString (game_title game))] |};
     modal_detail := Some (i18n "game.install.no_uploads_available.detail");
     modal_bigButtons := [];
     modal_buttons := retryButtons action |}.

Definition findUploadErrorModal (e : ITaskError) (action : Action)
  : IModal Action :=
  {| modal_title := i18n "prompt.install_error.title";
     modal_message := {| i18n_key := "prompt.install_error.find_upload";
                         i18n_vars := [("message", ArgError e)] |};
     modal_detail := None;
     modal_bigButtons := [];
     modal_buttons := retryButtons action |}.

Definition installDownload `{Collaborators} (game : IGameRecord)
    (upload : IUploadRecord) (pickedUpload : option Z)
    (downloadKey : option IDownloadKey) (password secret : option string)
  : IQueueDownload :=
  {| dl_game := game;
     dl_upload := upload;
     dl_handPicked := match pickedUpload with Some _ => true | None => false end;
     dl_totalSize := size upload;
     dl_destPath := downloadPath upload;
     dl_downloadKey := downloadKey;
     dl_reason := "install";
     dl_password := password;
     dl_secret := secret |}.

(** *** The reactor on [actions.queueGame], lines 52-200 *)

(** [(password, secret)] when line 83 is reached: those of [extraOpts],
    overridden by the open tabs. *)
Definition credentials `{Collaborators} (state : IState)
    (payload : IQueueGamePayload) : option string * option string :=
  let extraOpts := default noExtraOpts (p_extraOpts payload) in
  scanTabs (tabData state) (eo_password extraOpts) (eo_secret extraOpts).

(** The descriptor of lines 83-89. *)
Definition findUploadTask `{Collaborators} (state : IState)
    (payload : IQueueGamePayload) : ITask :=
  let game := p_game payload in
  let '(password, secret) := credentials state payload in
  FindUploadTask (game_id game) game password secret.

Definition queueGame `{Collaborators} (state : IState)
    (payload : IQueueGamePayload) : Reactor unit :=
  let action := QueueGame payload in
  let game := p_game payload in
  let extraOpts := default noExtraOpts (p_extraOpts payload) in
  let pickedUpload := p_pickedUpload payload in
  match cavesByGameId state !! game_id game with
  | Some cave => startCave game cave extraOpts
  | None =>
      let '(password, secret) := credentials state payload in
      uploadResponse ← startTask (findUploadTask state payload);
      match err uploadResponse with
      | Some e => dispatch (OpenModal (findUploadErrorModal e action))
      | None =>
          match result uploadResponse with
          | None => throw
          | Some found =>
              let uploads := resolveUploads pickedUpload (uploads found) in
              if Z.ltb 0 (Z.of_nat (List.length uploads)) then
                if Z.ltb 1 (Z.of_nat (List.length uploads)) then
                  dispatch (OpenModal
                    (pickUploadModal payload password secret uploads))
                else
                  match uploads with
                  | upload :: _ =>
                      dispatch (QueueDownload
                        (installDownload game upload pickedUpload
                           (downloadKey found) password secret))
                  | [] => throw
                  end
              else dispatch (OpenModal (noUploadsModal game action))
          end
      end
  end.

End QueueGame.

(** ** The macOS [configure] step: looking for app bundles *)

Module Configure.

Record IFsError := { code : string }.

Record IStats := { isSymbolicLink : bool }.

Record IConfigureResult := { executables : list string }.

(** The file system ([util/sf], [path]) and [fixExecs] ([./common]). *)
Class FileSystem := {
  (** [sf.glob(pattern, {cwd})] *)
  glob : string -> string -> IFsError + list string;
  (** [sf.lstat(path)] *)
  lstat : string -> IFsError + IStats;
  (** [ospath.join(first, ...rest)] *)
  join : string -> list string -> string;
  (** [ospath.sep] *)
  sep : ascii;
  (** [fixExecs(field, path)] *)
  fixExecs : string -> string -> IFsError + list string
}.

(** How the walk along one candidate ends. *)
Inductive Verdict :=
| Keep
| Skip
| Throw (e : IFsError).

(** The inner loop over the path elements of one candidate.  Next to the
    verdict it returns every [lstat] call it made, with its answer, oldest
    first. *)
Fixpoint walkElements `{FileSystem} (cavePath : string)
    (currentElements pathElements : list string)
  : Verdict * list (string * (IFsError + IStats)) :=
  match pathElements with
  | [] => (Keep, [])
  | element :: rest =>
      if String.eqb element "__MACOSX" then (Skip, [])
      else
        let currentElements := (currentElements ++ [element])%list in
        let path := join cavePath currentElements in
        match lstat path with
        | inr stats =>
            if isSymbolicLink stats then (Skip, [(path, inr stats)])
            else
              let '(v, calls) := walkElements cavePath currentElements rest in
              (v, (path, inr stats) :: calls)
        | inl e =>
            if String.eqb (code e) "ENOENT" || String.eqb (code e) "EPERM"
            then (Skip, [(path, inl e)])
            else (Throw e, [(path, inl e)])
        end
  end.

Definition is_Keep (v : Verdict) : bool :=
  match v with Keep => true | _ => false end.

(** An [lstat] answer that makes the walk give the candidate up: a
    symbolic link, or a failure with code ENOENT or EPERM. *)
Definition asksToSkip (answer : IFsError + IStats) : bool :=
  match answer with
  | inr stats => isSymbolicLink stats
  | inl e => String.eqb (code e) "ENOENT" || String.eqb (code e) "EPERM"
  end.

(** An [lstat] failure with any other code. *)
Definition fatal (answer : IFsError + IStats) : bool :=
  match answer with
  | inr _ => false
  | inl e => negb (String.eqb (code e) "ENOENT" || String.eqb (code e) "EPERM")
  end.

(** One turn of the outer loop: the verdict on the candidate [res]. *)
Definition examine `{FileSystem} (cavePath res : string)
  : Verdict * list (string * (IFsError + IStats)) :=
  walkElements cavePath [] (JsString.split sep res).

(** The outer loop over the glob results; [bundles] is the array being
    filled. *)
Fixpoint scan `{FileSystem} (cavePath : string) (globRes : list string)
    (bundles : list string) : IFsError + list string :=
  match globRes with
  | [] => inr bundles
  | res :: rest =>
      match fst (examine cavePath res) with
      | Keep => scan cavePath rest (bundles ++ [String.append res "/"])%list
      | Skip => scan cavePath rest bundles
      | Throw e => inl e
      end
  end.

(** The path of the first [k] elements of the candidate [res], below the
    install folder. *)
Definition prefixPath `{FileSystem} (cavePath res : string) (k : nat) : string :=
  join cavePath (firstn k (JsString.split sep res)).

(** An [lstat] answer for a plain entry: found, and no symbolic link. *)
Definition plain (answer : IFsError + IStats) : bool :=
  match answer with
  | inr stats => negb (isSymbolicLink stats)
  | inl _ => false
  end.

(** While walking along [res], some [lstat] call got an answer of the kind
    [kind]. *)
Definition meets `{FileSystem} (cavePath res : string)
    (kind : IFsError + IStats -> bool) : Prop :=
  exists call, In call (snd (examine cavePath res)) /\ kind (snd call) = true.

(** [bluebird.each(bundles, fixer)] *)
Fixpoint fixEach `{FileSystem} (cavePath : string) (bundles : list string)
  : IFsError + unit :=
  match bundles with
  | [] => inr tt
  | x :: rest =>
      match fixExecs "macExecutable" (join cavePath [x]) with
      | inl e => inl e
      | inr _ => fixEach cavePath rest
      end
  end.

Definition configure `{FileSystem} (cavePath : string)
  : IFsError + IConfigureResult :=
  match glob "**/*.app/" cavePath with
  | inl e => inl e
  | inr globRes =>
      match scan cavePath globRes [] with
      | inl e => inl e
      | inr bundles =>
          if negb (Nat.eqb (List.length bundles) 0) then
            match fixEach cavePath bundles with
            | inl e => inl e
            | inr _ => inr {| executables := bundles |}
            end
          else
            match fixExecs "macExecutable" cavePath with
            | inl e => inl e
            | inr executables => inr {| executables := executables |}
            end
      end
  end.

End Configure.

(** ** Scenarios: concrete collaborators and inputs *)

Module Scenario.

Import QueueGame.

Definition upload (id : Z) (name : string) (bytes : Z) : IUploadRecord :=
  {| upload_id := id; filename := Some name; displayName := None;
     size := bytes |}.

Definition game : IGameRecord := {| game_id := 7; game_title := "Overland" |}.

Definition install : IQueueGamePayload :=
  {| p_game := game; p_extraOpts := None; p_pickedUpload := None;
     p_password := None; p_secret := None |}.

Definition emptyState : IState := {| cavesByGameId := ∅; tabData := [] |}.

(** A 64-bit Windows host whose find-upload task answers with [found] and
    whose launch task fails. *)
Definition windows64 (found : list IUploadRecord) : Collaborators :=
  {| task_outcome := fun t =>
       match t with
       | FindUploadTask _ _ _ _ =>
           {| err := None;
              result := Some {| uploads := found; downloadKey := None |} |}
       | LaunchTask _ _ _ =>
           {| err := Some {| reason := None; as_string := "Error: no exe" |};
              result := None |}
       end;
     downloadPath := fun u => "downloads/" ++ JsString.ofNumber (upload_id u);
     makeUploadButton := fun u => [("label", JsString.orEmpty (filename u))];
     parseQuery := fun _ => {| q_secret := None; q_password := None |};
     platform := "win32";
     isWin64 := true |}.

Definition both : IUploadRecord := upload 1 "game-32-64.zip" 100.
Definition x86 : IUploadRecord := upload 2 "game-x86-32.zip" 90.
Definition x64 : IUploadRecord := upload 3 "game-x64.zip" 110.
Definition zipA : IUploadRecord := upload 4 "a.zip" 10.
Definition zipB : IUploadRecord := upload 5 "b.zip" 20.

Definition listing (found : list IUploadRecord) : IFindUploadResult :=
  {| uploads := found; downloadKey := None |}.

Definition picking (id : Z) : IQueueGamePayload :=
  {| p_game := game; p_extraOpts := None; p_pickedUpload := Some id;
     p_password := None; p_secret := None |}.

Definition withPassword : IQueueGamePayload :=
  {| p_game := game;
     p_extraOpts := Some {| eo_password := Some "hunter2"; eo_secret := None |};
     p_pickedUpload := None; p_password := None; p_secret := None |}.

Definition cave : ICaveRecord := {| cave_id := "cave-7"; cave_game := game |}.

Definition installedState : IState :=
  {| cavesByGameId := {[ 7 := cave ]}; tabData := [] |}.

(** A server that answers every request with [uploads] as given, the way
    Lua serializes it; [camelifyObject] has no key to rename. *)
Definition server (listed : Api.value) : Api.Net :=
  {| Api.net_request := fun _ _ _ =>
       inr {| Api.statusCode := 200;
              Api.body := {[ "uploads" := listed ]} |};
     Api.camelifyObject := fun body => body;
     Api.rootUrl := "https://itch.io/api/1" |}.

(** [path.join] on names without dots: empty pieces vanish. *)
Definition joinPath (first : string) (rest : list string) : string :=
  fold_left
    (fun acc piece => if String.eqb piece "" then acc else acc ++ "/" ++ piece)
    rest first.

(** An install folder where [Link.app] is a symbolic link, [Gone.app] has
    vanished and everything else is a plain directory. *)
Definition folder (found : list string) : Configure.FileSystem :=
  {| Configure.glob := fun _ _ => inr found;
     Configure.lstat := fun path =>
       if String.eqb path "cave/Link.app"
       then inr {| Configure.isSymbolicLink := true |}
       else if String.eqb path "cave/Gone.app"
       then inl {| Configure.code := "ENOENT" |}
       else if String.eqb path "cave/Locked.app"
       then inl {| Configure.code := "EACCES" |}
       else inr {| Configure.isSymbolicLink := false |};
     Configure.join := joinPath;
     Configure.sep := "/"%char;
     Configure.fixExecs := fun _ _ => inr [] |}.

End Scenario.

(** ** [appsrc/components/game-grid.tsx]: [cellRenderer] *)

Module GameGrid.

(** The part of a cell the renderer reads; [style] is the object the grid
    hands over, which [cellRenderer] writes into. *)
Record ICellInfo := {
  columnIndex : Z;
  rowIndex : Z;
  style : gmap string string
}.

Record ILayoutInfo (G : Type) := {
  columnCount : Z;
  games : list G
}.
Arguments columnCount {G} _.
Arguments games {G} _.

(** What ends up on screen: the style of the [div] and the record shown in
    it, if any. *)
Record ICell (G : Type) := {
  cell_style : gmap string string;
  cell_record : option G
}.
Arguments cell_style {G} _.
Arguments cell_record {G} _.

(** [array[index]] for an integer index: [undefined] out of bounds. *)
Definition at_index {G : Type} (array : list G) (index : Z) : option G :=
  if Z.ltb index 0 then None else array !! Z.to_nat index.

(** Line 71. *)
Definition gameIndex {G : Type} (layout : ILayoutInfo G) (cell : ICellInfo) : Z :=
  rowIndex cell * columnCount layout + columnIndex cell.

(** Lines 70-91. *)
Definition cellRenderer {G : Type} (layout : ILayoutInfo G) (cell : ICellInfo)
  : ICell G :=
  let record := at_index (games layout) (gameIndex layout cell) in
  let style := <["padding" := "10px"]> (style cell) in
  let style :=
    if Z.ltb (columnIndex cell) (columnCount layout - 1)
    then <["marginRight" := "10px"]> style
    else style in
  {| cell_style := style; cell_record := record |}.

(** The cell of the grid at a row and a column, with a fresh style. *)
Definition cellAt (row column : Z) : ICellInfo :=
  {| columnIndex := column; rowIndex := row; style := ∅ |}.

End GameGrid.

(** ** [appsrc/components/collection-hub-item.tsx]: [render] *)

Module CollectionHubItem.

Record IGameRecord := {
  stillCoverUrl : option string;
  coverUrl : option string
}.

Record ICollectionRecord := {
  title : string;
  gameIds : option (list Z)
}.

(** Lines 33-37: the [backgroundImage] of a cover, if it gets one. *)
Definition coverStyle (game : IGameRecord) : option string :=
  let coverUrl :=
    if JsString.truthy (stillCoverUrl game) then stillCoverUrl game
    else coverUrl game in
  if JsString.truthy coverUrl
  then Some ("url('" ++ default "" coverUrl ++ "')")
  else None.

(** Lines 29-30: the first eight ids, then the games the market knows. *)
Definition shownGames (allGames : gmap Z IGameRecord)
    (collection : ICollectionRecord) : list IGameRecord :=
  let gameIds := take 8 (default [] (gameIds collection)) in
  omap (fun x => x) (List.map (fun gameId => allGames !! gameId) gameIds).

(** Lines 32-44: the covers of the fresco, in order. *)
Definition cols (allGames : gmap Z IGameRecord)
    (collection : ICollectionRecord) : list (option string) :=
  List.map coverStyle (shownGames allGames collection).

(** Line 46. *)
Definition itemCount (collection : ICollectionRecord) : nat :=
  List.length (default [] (gameIds collection)).

End CollectionHubItem.

(** ** More scenarios *)

Module Cases.

Import QueueGame.

(** A host of the given platform and width whose find-upload task answers
    with [found]. *)
Definition host (os : string) (win64 : bool) (found : list IUploadRecord)
  : Collaborators :=
  {| task_outcome := fun t =>
       {| err := None;
          result := Some {| uploads := found; downloadKey := None |} |};
     downloadPath := fun u => "downloads/" ++ JsString.ofNumber (upload_id u);
     makeUploadButton := fun u => [("label", JsString.orEmpty (filename u))];
     parseQuery := fun path =>
       {| q_secret :=
            if Z.eqb (JsString.indexOf path "secret=s3") (-1) then None
            else Some "s3";
          q_password := None |};
     platform := os;
     isWin64 := win64 |}.

(** A host whose tasks all fail. *)
Definition offline : Collaborators :=
  {| task_outcome := fun t =>
       {| err := Some {| reason := None; as_string := "Error: offline" |};
          result := None |};
     downloadPath := fun u => "";
     makeUploadButton := fun u => [];
     parseQuery := fun _ => {| q_secret := None; q_password := None |};
     platform := "linux";
     isWin64 := false |}.

(** A tab named after the page it shows. *)
Definition tab (path : string) : string * ITabData :=
  ("tab:" ++ path, {| tab_path := Some path |}).

Definition browsing (paths : list string) : IState :=
  {| cavesByGameId := ∅; tabData := List.map tab paths |}.

(** An install folder where [lstat] fails on the directory [Sub] with an
    input/output error, while [Sub/Link.app] inside it is a symbolic link. *)
Definition flaky (found : list string) : Configure.FileSystem :=
  {| Configure.glob := fun _ _ => inr found;
     Configure.lstat := fun path =>
       if String.eqb path "cave/Sub"
       then inl {| Configure.code := "EIO" |}
       else if String.eqb path "cave/Sub/Link.app"
       then inr {| Configure.isSymbolicLink := true |}
       else inr {| Configure.isSymbolicLink := false |};
     Configure.join := Scenario.joinPath;
     Configure.sep := "/"%char;
     Configure.fixExecs := fun _ _ => inr [] |}.

End Cases.

(** * Part II: what the programs do *)

(** ** Strings *)

Section StringFacts.

Import JsString.

Lemma prefix_app (p s : string) :
  String.prefix p s = true <-> exists post, s = p ++ post.
Proof.
  revert s; induction p as [|a p IH]; intros s; simpl.
  - split; [intros _; exists s; reflexivity | destruct s; reflexivity].
  - destruct s as [|b s].
    + split; [discriminate | intros [post H]; discriminate H].
    + simpl. destruct (Ascii.ascii_dec a b) as [->|Hne].
      * rewrite IH. split; intros [post H]; exists post.
        -- now rewrite H.
        -- now injection H.
      * split; [discriminate | intros [post H]; injection H; congruence].
Qed.

Lemma index_0_Some (needle s : string) (n : nat) :
  String.index 0 needle s = Some n -> contains_substring s needle.
Proof.
  revert n; induction s as [|b s IH]; intros n; simpl.
  - destruct needle; [|discriminate]. intros _. exists "", "". reflexivity.
  - destruct needle as [|a needle].
    + intros _. exists "", (String b s). reflexivity.
    + simpl. destruct (Ascii.ascii_dec a b) as [->|Hne].
      * destruct (String.prefix needle s) eqn:Hp.
        -- intros _. apply prefix_app in Hp as [post ->].
           exists "", post. reflexivity.
        -- destruct (String.index 0 (String b needle) s) as [m|] eqn:Hi;
             [|discriminate].
           intros _. destruct (IH m eq_refl) as (pre & post & ->).
           exists (String b pre), post. reflexivity.
      * destruct (String.index 0 (String a needle) s) as [m|] eqn:Hi;
          [|discriminate].
        intros _. destruct (IH m eq_refl) as (pre & post & ->).
        exists (String b pre), post. reflexivity.
Qed.

Lemma index_0_None (needle s : string) :
  String.index 0 needle s = None -> ~ contains_substring s needle.
Proof.
  induction s as [|b s IH]; simpl.
  - destruct needle as [|a needle]; [discriminate|].
    intros _ (pre & post & H). destruct pre; discriminate H.
  - destruct needle as [|a needle]; [discriminate|].
    simpl. destruct (Ascii.ascii_dec a b) as [->|Hne].
    + destruct (String.prefix needle s) eqn:Hp; [discriminate|].
      destruct (String.index 0 (String b needle) s) eqn:Hi; [discriminate|].
      intros _ (pre & post & H). destruct pre as [|c pre]; simpl in H.
      * injection H as H. assert (String.prefix needle s = true) as Hp'
          by (apply prefix_app; eauto). congruence.
      * injection H as _ H. apply IH; [reflexivity|]. now exists pre, post.
    + destruct (String.index 0 (String a needle) s) eqn:Hi; [discriminate|].
      intros _ (pre & post & H). destruct pre as [|c pre]; simpl in H.
      * injection H as H _. congruence.
      * injection H as _ H. apply IH; [reflexivity|]. now exists pre, post.
Qed.

(** [s.indexOf(needle) !== -1] decides the substring relation. *)
Lemma indexOf_contains (s needle : string) :
  negb (Z.eqb (indexOf s needle) (-1)) = true <-> contains_substring s needle.
Proof.
  unfold indexOf. destruct (String.index 0 needle s) as [n|] eqn:Hi.
  - split; [intros _; eapply index_0_Some; eassumption |].
    intros _. apply negb_true_iff, Z.eqb_neq. lia.
  - split; [discriminate | intros H; now apply index_0_None in Hi].
Qed.

Lemma orEmpty_default (o : option string) : orEmpty o = default "" o.
Proof.
  destruct o as [s|]; [|reflexivity]. unfold orEmpty; simpl.
  destruct (String.eqb_spec s ""); simpl; congruence.
Qed.

End StringFacts.

(** ** Choosing among the uploads *)

Section Sniffing.

Import JsString QueueGame.
Context `{Collaborators}.

Lemma uploadContainsString_mentions (u : IUploadRecord) (needle : string) :
  uploadContainsString u needle = true <-> mentions u needle.
Proof.
  unfold uploadContainsString, mentions.
  rewrite orb_true_iff, !indexOf_contains, !orEmpty_default. reflexivity.
Qed.

Lemma uploadContainsString_false (u : IUploadRecord) (needle : string) :
  uploadContainsString u needle = false <-> ~ mentions u needle.
Proof.
  rewrite <- uploadContainsString_mentions.
  destruct (uploadContainsString u needle); split; congruence.
Qed.

Lemma anyUploadContainsString_In (l : list IUploadRecord) (needle : string) :
  anyUploadContainsString l needle = true
  <-> exists u, In u l /\ mentions u needle.
Proof.
  induction l as [|a l IH]; simpl.
  - split; [discriminate | intros (u & [] & _)].
  - destruct (uploadContainsString a needle) eqn:Ha.
    + split; [|reflexivity]. intros _. exists a. split; [now left|].
      now apply uploadContainsString_mentions.
    + rewrite IH. split; intros (u & Hu & Hm).
      * exists u. split; [now right | assumption].
      * destruct Hu as [->|Hu]; [|now exists u].
        apply uploadContainsString_mentions in Hm. congruence.
Qed.

(** On 64-bit Windows, with several candidates of which one mentions "64",
    sniffing is the filter of line 134. *)
Lemma sniffPlatforms_win64 (candidates : list IUploadRecord) :
  platform = "win32" -> isWin64 = true ->
  (1 < List.length candidates)%nat ->
  (exists u, In u candidates /\ mentions u "64") ->
  sniffPlatforms candidates
  = List.filter (fun u => negb (uploadContainsString u "32")) candidates.
Proof.
  intros Hp Hw Hlen Hex. unfold sniffPlatforms. rewrite Hp, Hw.
  replace (Z.ltb 1 (Z.of_nat (List.length candidates))) with true
    by (symmetry; apply Z.ltb_lt; lia).
  apply anyUploadContainsString_In in Hex. rewrite Hex. reflexivity.
Qed.

(** With at most one candidate nothing is sniffed. *)
Lemma sniffPlatforms_short (candidates : list IUploadRecord) :
  (List.length candidates <= 1)%nat -> sniffPlatforms candidates = candidates.
Proof.
  intros Hlen. unfold sniffPlatforms.
  replace (Z.ltb 1 (Z.of_nat (List.length candidates))) with false
    by (symmetry; apply Z.ltb_ge; lia).
  reflexivity.
Qed.

(** Sniffing only ever removes candidates. *)
Lemma sniffPlatforms_incl (candidates : list IUploadRecord) (u : IUploadRecord) :
  In u (sniffPlatforms candidates) -> In u candidates.
Proof.
  unfold sniffPlatforms.
  repeat match goal with |- context [if ?b then _ else _] => destruct b end;
    try rewrite filter_In; tauto.
Qed.

(** A pick that is a non-zero number no upload carries leaves nothing. *)
Lemma pickUpload_stale (picked : Z) (ups : list IUploadRecord) :
  picked <> 0 ->
  (forall u, In u ups -> upload_id u <> picked) ->
  pickUpload (Some picked) ups = [].
Proof.
  intros Hnz Hnone. unfold pickUpload.
  replace (Z.eqb picked 0) with false by (symmetry; now apply Z.eqb_neq).
  simpl. induction ups as [|a ups IH]; [reflexivity|]. simpl.
  replace (Z.eqb (upload_id a) picked) with false
    by (symmetry; apply Z.eqb_neq, Hnone; now left).
  apply IH. intros u Hu. apply Hnone. now right.
Qed.

End Sniffing.

(** ** The reactor on [actions.queueGame] *)

Section Reactor.

Import JsString QueueGame.
Context `{Collaborators}.

(** The run of the reactor when the game has no cave and the find-upload
    task succeeds, by the number of candidates left. *)
Lemma queueGame_resolved (state : IState) (payload : IQueueGamePayload)
    (found : IFindUploadResult) :
  cavesByGameId state !! game_id (p_game payload) = None ->
  err (task_outcome (findUploadTask state payload)) = None ->
  result (task_outcome (findUploadTask state payload)) = Some found ->
  let candidates := resolveUploads (p_pickedUpload payload) (uploads found) in
  let password := fst (credentials state payload) in
  let secret := snd (credentials state payload) in
  queueGame state payload =
  (Some tt,
   [ Started (findUploadTask state payload);
     Dispatched
       match candidates with
       | [] => OpenModal (noUploadsModal (p_game payload) (QueueGame payload))
       | [upload] =>
           QueueDownload
             (installDownload (p_game payload) upload (p_pickedUpload payload)
                (downloadKey found) password secret)
       | _ :: _ :: _ =>
           OpenModal (pickUploadModal payload password secret candidates)
       end ]).
Proof.
  intros Hcave Herr Hres candidates password secret.
  subst password secret.
  destruct (credentials state payload) as [password secret] eqn:Hcred.
  unfold queueGame. rewrite Hcave, Hcred.
  unfold startTask, mbind, reactor_bind. rewrite Herr, Hres.
  fold candidates. destruct candidates as [|u [|u' rest]]; try reflexivity.
  replace (Z.ltb 0 (Z.of_nat (List.length (u :: u' :: rest)))) with true
    by (symmetry; apply Z.ltb_lt; simpl List.length; lia).
  replace (Z.ltb 1 (Z.of_nat (List.length (u :: u' :: rest)))) with true
    by (symmetry; apply Z.ltb_lt; simpl List.length; lia).
  reflexivity.
Qed.

(** The run of the reactor when the game has a cave. *)
Lemma queueGame_cave (state : IState) (payload : IQueueGamePayload)
    (cave : ICaveRecord) :
  cavesByGameId state !! game_id (p_game payload) = Some cave ->
  queueGame state payload
  = startCave (p_game payload) cave (default noExtraOpts (p_extraOpts payload)).
Proof. intros Hcave. unfold queueGame. now rewrite Hcave. Qed.

(** The run of the reactor when the find-upload task fails: one modal, whose
    "try again" button carries the action the reactor was handed. *)
Lemma queueGame_find_upload_failed (state : IState)
    (payload : IQueueGamePayload) (e : ITaskError) :
  cavesByGameId state !! game_id (p_game payload) = None ->
  err (task_outcome (findUploadTask state payload)) = Some e ->
  queueGame state payload =
  (Some tt,
   [ Started (findUploadTask state payload);
     Dispatched (OpenModal (findUploadErrorModal e (QueueGame payload))) ]).
Proof.
  intros Hcave Herr. unfold queueGame. rewrite Hcave.
  destruct (credentials state payload) as [password secret].
  unfold startTask, mbind, reactor_bind. now rewrite Herr.
Qed.

(** The "try again" option after a failed launch is built from the game
    alone, whatever the payload held. *)
Lemma startCave_failed (game : IGameRecord) (cave : ICaveRecord)
    (extraOpts : IExtraOpts) (e : ITaskError) :
  err (task_outcome (LaunchTask (game_id (cave_game cave)) cave extraOpts))
  = Some e ->
  exists item,
    dispatched (startCave game cave extraOpts) = [QueueHistoryItem item]
    /\ List.map ho_action (hi_options item)
       = [ QueueGame {| p_game := game; p_extraOpts := None;
                        p_pickedUpload := None; p_password := None;
                        p_secret := None |} ].
Proof.
  intros Herr. unfold startCave, startTask, mbind, reactor_bind.
  rewrite Herr. eexists. split; reflexivity.
Qed.

(** C3.  When the game has no cave, the find-upload task succeeds and no
    candidate is left after the pick and the platform sniffing, the reactor
    dispatches one action: the "no uploads available" modal, whose "try
    again" button carries the action the reactor was handed.  No download is
    enqueued. *)
Theorem no_candidates_opens_retry_modal (state : IState)
    (payload : IQueueGamePayload) (found : IFindUploadResult) :
  cavesByGameId state !! game_id (p_game payload) = None ->
  err (task_outcome (findUploadTask state payload)) = None ->
  result (task_outcome (findUploadTask state payload)) = Some found ->
  resolveUploads (p_pickedUpload payload) (uploads found) = [] ->
  let modal := noUploadsModal (p_game payload) (QueueGame payload) in
  dispatched (queueGame state payload) = [OpenModal modal]
  /\ i18n_key (modal_title modal) = "game.install.no_uploads_available.message"
  /\ modal_buttons modal
     = [ ActionButton (i18n "game.install.try_again") "repeat"
           (QueueGame payload);
         NamedButton "ok" ]
  /\ Forall (fun a => is_QueueDownload a = false)
       (dispatched (queueGame state payload)).
Proof.
  intros Hcave Herr Hres Hnone modal.
  pose proof (queueGame_resolved state payload found Hcave Herr Hres) as Hrun.
  cbv zeta in Hrun. rewrite Hnone in Hrun. rewrite Hrun.
  repeat split. repeat constructor.
Qed.

(** C4.  When exactly one candidate is left, the reactor dispatches one
    action: [queueDownload] for that candidate, with its size as
    [totalSize] and [pathmaker.downloadPath] of it as [destPath].  No modal
    is opened. *)
Theorem single_candidate_enqueues_download (state : IState)
    (payload : IQueueGamePayload) (found : IFindUploadResult)
    (upload : IUploadRecord) :
  cavesByGameId state !! game_id (p_game payload) = None ->
  err (task_outcome (findUploadTask state payload)) = None ->
  result (task_outcome (findUploadTask state payload)) = Some found ->
  resolveUploads (p_pickedUpload payload) (uploads found) = [upload] ->
  exists download,
    dispatched (queueGame state payload) = [QueueDownload download]
    /\ dl_game download = p_game payload
    /\ dl_upload download = upload
    /\ dl_totalSize download = size upload
    /\ dl_destPath download = downloadPath upload
    /\ dl_downloadKey download = downloadKey found
    /\ dl_reason download = "install"
    /\ Forall (fun a => is_OpenModal a = false)
         (dispatched (queueGame state payload)).
Proof.
  intros Hcave Herr Hres Hone.
  pose proof (queueGame_resolved state payload found Hcave Herr Hres) as Hrun.
  cbv zeta in Hrun. rewrite Hone in Hrun. rewrite Hrun.
  eexists. repeat split. repeat constructor.
Qed.

(** C5.  When more than one candidate is left, the reactor dispatches one
    action: the pick-upload modal.  It has one big button per candidate, in
    order, and the action of a candidate's button is [queueGame] with the
    game and the extra options of the payload at hand, [pickedUpload] set to
    the candidate's id, and the password and secret the reactor had found.
    No download is enqueued. *)
Theorem several_candidates_open_pick_prompt (state : IState)
    (payload : IQueueGamePayload) (found : IFindUploadResult) :
  cavesByGameId state !! game_id (p_game payload) = None ->
  err (task_outcome (findUploadTask state payload)) = None ->
  result (task_outcome (findUploadTask state payload)) = Some found ->
  let candidates := resolveUploads (p_pickedUpload payload) (uploads found) in
  (1 < List.length candidates)%nat ->
  exists modal,
    dispatched (queueGame state payload) = [OpenModal modal]
    /\ i18n_key (modal_title modal) = "pick_install_upload.title"
    /\ List.length (modal_bigButtons modal) = List.length candidates
    /\ Forall2
         (fun u button =>
            bb_action button
            = QueueGame {| p_game := p_game payload;
                           p_extraOpts := p_extraOpts payload;
                           p_pickedUpload := Some (upload_id u);
                           p_password := fst (credentials state payload);
                           p_secret := snd (credentials state payload) |})
         candidates (modal_bigButtons modal)
    /\ Forall (fun a => is_QueueDownload a = false)
         (dispatched (queueGame state payload)).
Proof.
  intros Hcave Herr Hres candidates Hmany.
  pose proof (queueGame_resolved state payload found Hcave Herr Hres) as Hrun.
  cbv zeta in Hrun. fold candidates in Hrun. rewrite Hrun.
  match goal with |- context [Dispatched ?a] => set (act := a) end.
  assert (act = OpenModal (pickUploadModal payload
                             (fst (credentials state payload))
                             (snd (credentials state payload)) candidates))
    as ->.
  { subst act. destruct candidates as [|u [|u' rest]]; simpl in Hmany;
      try lia; reflexivity. }
  exists (pickUploadModal payload (fst (credentials state payload))
            (snd (credentials state payload)) candidates).
  split; [reflexivity|]. split; [reflexivity|].
  split; [simpl; now rewrite length_map|].
  split; [|repeat constructor].
  simpl. clear. induction candidates as [|c l IH]; simpl; now constructor.
Qed.

(** C6.  When the store holds a cave for the game, the reactor starts one
    task, the launch of that cave, and returns: it starts no find-upload
    task and dispatches no [queueDownload]. *)
Theorem existing_cave_skips_resolution (state : IState)
    (payload : IQueueGamePayload) (cave : ICaveRecord) :
  cavesByGameId state !! game_id (p_game payload) = Some cave ->
  started (queueGame state payload)
  = [ LaunchTask (game_id (cave_game cave)) cave
        (default noExtraOpts (p_extraOpts payload)) ]
  /\ returned (queueGame state payload) = Some tt
  /\ Forall (fun t => task_name t <> "find-upload")
       (started (queueGame state payload))
  /\ Forall (fun a => is_QueueDownload a = false)
       (dispatched (queueGame state payload)).
Proof.
  intros Hcave. rewrite (queueGame_cave _ _ _ Hcave).
  unfold startCave, startTask, mbind, reactor_bind.
  destruct (err (task_outcome _)) as [e|]; simpl;
    repeat split; repeat constructor; discriminate.
Qed.

(** When the payload carries a picked upload that is a non-zero number
    and no upload found has that id, no candidate is left:
    the reactor opens the "no uploads available" modal and enqueues no
    download. *)
Theorem stale_pick_leaves_no_candidate (state : IState)
    (payload : IQueueGamePayload) (found : IFindUploadResult) (picked : Z) :
  p_pickedUpload payload = Some picked ->
  picked <> 0 ->
  (forall u, In u (uploads found) -> upload_id u <> picked) ->
  cavesByGameId state !! game_id (p_game payload) = None ->
  err (task_outcome (findUploadTask state payload)) = None ->
  result (task_outcome (findUploadTask state payload)) = Some found ->
  pickUpload (p_pickedUpload payload) (uploads found) = []
  /\ resolveUploads (p_pickedUpload payload) (uploads found) = []
  /\ dispatched (queueGame state payload)
     = [OpenModal (noUploadsModal (p_game payload) (QueueGame payload))]
  /\ Forall (fun a => is_QueueDownload a = false)
       (dispatched (queueGame state payload)).
Proof.
  intros Hpick Hnz Hstale Hcave Herr Hres.
  assert (pickUpload (p_pickedUpload payload) (uploads found) = []) as Hnil
    by (rewrite Hpick; now apply pickUpload_stale).
  assert (resolveUploads (p_pickedUpload payload) (uploads found) = [])
    as Hnone.
  { unfold resolveUploads. rewrite Hnil. apply sniffPlatforms_short.
    simpl; lia. }
  pose proof (queueGame_resolved state payload found Hcave Herr Hres) as Hrun.
  cbv zeta in Hrun. rewrite Hnone in Hrun. rewrite Hrun.
  repeat split; try assumption. repeat constructor.
Qed.

(** C1, amended.  On a 64-bit Windows host, when more than one candidate is
    left after the pick and one of them mentions "64", the resolved list is
    the candidates that do not mention "32", in their order: none that
    mentions "32" is in it, and every candidate that does not is.  When at
    most one candidate is left, nothing is sniffed: the resolved list is the
    candidates as they are, whatever their names. *)
Theorem win64_drops_32_among_several (pickedUpload : option Z)
    (ups : list IUploadRecord) :
  platform = "win32" -> isWin64 = true ->
  let candidates := pickUpload pickedUpload ups in
  ((1 < List.length candidates)%nat ->
   (exists u, In u candidates /\ mentions u "64") ->
   resolveUploads pickedUpload ups
   = List.filter (fun u => negb (uploadContainsString u "32")) candidates
   /\ (forall u, In u (resolveUploads pickedUpload ups) -> ~ mentions u "32")
   /\ (forall u, In u candidates -> ~ mentions u "32" ->
         In u (resolveUploads pickedUpload ups)))
  /\ ((List.length candidates <= 1)%nat ->
      resolveUploads pickedUpload ups = candidates).
Proof.
  intros Hp Hw candidates. split.
  - intros Hlen Hex.
    assert (resolveUploads pickedUpload ups
            = List.filter (fun u => negb (uploadContainsString u "32"))
                candidates) as Heq
      by (unfold resolveUploads; now apply sniffPlatforms_win64).
    split; [exact Heq|]. rewrite Heq. split; intros u.
    + rewrite filter_In, negb_true_iff, uploadContainsString_false. tauto.
    + intros Hin Hno. rewrite filter_In, negb_true_iff,
        uploadContainsString_false. tauto.
  - intros Hlen. unfold resolveUploads. now apply sniffPlatforms_short.
Qed.

(** C9, amended.  On a 64-bit Windows host, when more than one candidate is
    left after the pick and one of them mentions both "32" and "64", the
    64-bit rule is the one applied (the test of line 133 succeeds and the
    resolved list is the filter of line 134) and that candidate is not in
    the resolved list.  When that candidate is the only one left, it is
    kept: the resolved list is that candidate alone. *)
Theorem win64_rule_drops_candidate_with_both (pickedUpload : option Z)
    (ups : list IUploadRecord) (u : IUploadRecord) :
  platform = "win32" -> isWin64 = true ->
  mentions u "32" -> mentions u "64" ->
  let candidates := pickUpload pickedUpload ups in
  ((1 < List.length candidates)%nat -> In u candidates ->
   anyUploadContainsString candidates "64" = true
   /\ resolveUploads pickedUpload ups
      = List.filter (fun c => negb (uploadContainsString c "32")) candidates
   /\ ~ In u (resolveUploads pickedUpload ups))
  /\ (candidates = [u] -> resolveUploads pickedUpload ups = [u]).
Proof.
  intros Hp Hw H32 H64 candidates. split.
  - intros Hlen Hin.
    assert (exists c, In c candidates /\ mentions c "64") as Hex by eauto.
    split; [now apply anyUploadContainsString_In|].
    assert (resolveUploads pickedUpload ups
            = List.filter (fun c => negb (uploadContainsString c "32"))
                candidates) as Heq
      by (unfold resolveUploads; now apply sniffPlatforms_win64).
    split; [exact Heq|]. rewrite Heq, filter_In, negb_true_iff,
      uploadContainsString_false. tauto.
  - intros Hone. unfold resolveUploads. fold candidates. rewrite Hone.
    apply sniffPlatforms_short. simpl; lia.
Qed.

End Reactor.

(** ** The reactor on concrete runs *)

Section Runs.

Import JsString QueueGame Scenario.

Lemma no_candidates_witness :
  let modal := noUploadsModal game (QueueGame install) in
  dispatched (@queueGame (windows64 []) emptyState install) = [OpenModal modal]
  /\ i18n_key (modal_title modal) = "game.install.no_uploads_available.message"
  /\ modal_buttons modal
     = [ ActionButton (i18n "game.install.try_again") "repeat"
           (QueueGame install);
         NamedButton "ok" ]
  /\ Forall (fun a => is_QueueDownload a = false)
       (dispatched (@queueGame (windows64 []) emptyState install)).
Proof.
  apply (@no_candidates_opens_retry_modal (windows64 []) emptyState install
           (listing [])); reflexivity.
Defined.

(** The scenario of an x86 and an x64 build on 64-bit Windows: the x64 build
    is downloaded. *)
Lemma single_candidate_witness :
  exists download,
    dispatched (@queueGame (windows64 [x86; x64]) emptyState install)
    = [QueueDownload download]
    /\ dl_game download = game
    /\ dl_upload download = x64
    /\ dl_totalSize download = 110
    /\ dl_destPath download = "downloads/3"
    /\ dl_downloadKey download = None
    /\ dl_reason download = "install"
    /\ Forall (fun a => is_OpenModal a = false)
         (dispatched (@queueGame (windows64 [x86; x64]) emptyState install)).
Proof.
  apply (@single_candidate_enqueues_download (windows64 [x86; x64]) emptyState
           install (listing [x86; x64]) x64); reflexivity.
Defined.

Lemma several_candidates_witness :
  exists modal,
    dispatched (@queueGame (windows64 [zipA; zipB]) emptyState install)
    = [OpenModal modal]
    /\ i18n_key (modal_title modal) = "pick_install_upload.title"
    /\ List.length (modal_bigButtons modal) = 2%nat
    /\ Forall2
         (fun u button =>
            bb_action button
            = QueueGame {| p_game := game; p_extraOpts := None;
                           p_pickedUpload := Some (upload_id u);
                           p_password := None; p_secret := None |})
         [zipA; zipB] (modal_bigButtons modal)
    /\ Forall (fun a => is_QueueDownload a = false)
         (dispatched (@queueGame (windows64 [zipA; zipB]) emptyState install)).
Proof.
  apply (@several_candidates_open_pick_prompt (windows64 [zipA; zipB])
           emptyState install (listing [zipA; zipB]));
    [reflexivity | reflexivity | reflexivity | simpl; lia].
Defined.

Lemma existing_cave_witness :
  started (@queueGame (windows64 []) installedState install)
  = [LaunchTask 7 cave noExtraOpts]
  /\ returned (@queueGame (windows64 []) installedState install) = Some tt
  /\ Forall (fun t => task_name t <> "find-upload")
       (started (@queueGame (windows64 []) installedState install))
  /\ Forall (fun a => is_QueueDownload a = false)
       (dispatched (@queueGame (windows64 []) installedState install)).
Proof.
  apply (@existing_cave_skips_resolution (windows64 []) installedState install
           cave); reflexivity.
Defined.

Lemma stale_pick_witness :
  pickUpload (Some 99) [x64] = []
  /\ @resolveUploads (windows64 [x64]) (Some 99) [x64] = []
  /\ dispatched (@queueGame (windows64 [x64]) emptyState (picking 99))
     = [OpenModal (noUploadsModal game (QueueGame (picking 99)))]
  /\ Forall (fun a => is_QueueDownload a = false)
       (dispatched (@queueGame (windows64 [x64]) emptyState (picking 99))).
Proof.
  apply (@stale_pick_leaves_no_candidate (windows64 [x64]) emptyState
           (picking 99) (listing [x64]) 99); try reflexivity; try lia.
  intros u [<-|[]]; simpl; lia.
Defined.

(** C10.  The payload picks upload [0] and the one upload found has id
    [3].  Line 108 tests [pickedUpload] for truthiness, so nothing is
    filtered, and the reactor enqueues the download of the upload found,
    which line 175 (a test against [null]) marks as hand-picked. *)
Lemma zero_pick_is_not_filtered :
  p_pickedUpload (picking 0) = Some 0
  /\ (forall u, In u [x64] -> upload_id u <> 0)
  /\ pickUpload (Some 0) [x64] = [x64]
  /\ exists download,
       dispatched (@queueGame (windows64 [x64]) emptyState (picking 0))
       = [QueueDownload download]
       /\ dl_upload download = x64
       /\ dl_handPicked download = true.
Proof.
  split; [reflexivity|]. split; [intros u [<-|[]]; simpl; lia|].
  split; [reflexivity|]. eexists. repeat split.
Qed.

Lemma mentions_both_32 : mentions both "32".
Proof. now apply uploadContainsString_mentions. Qed.

Lemma mentions_both_64 : mentions both "64".
Proof. now apply uploadContainsString_mentions. Qed.

Lemma mentions_x64_64 : mentions x64 "64".
Proof. now apply uploadContainsString_mentions. Qed.

Lemma win64_drops_32_witness :
  (@resolveUploads (windows64 []) None [x86; x64] = [x64]
   /\ (forall u, In u (@resolveUploads (windows64 []) None [x86; x64]) ->
         ~ mentions u "32")
   /\ (forall u, In u [x86; x64] -> ~ mentions u "32" ->
         In u (@resolveUploads (windows64 []) None [x86; x64])))
  /\ @resolveUploads (windows64 []) None [both] = [both].
Proof.
  split.
  - apply (proj1 (@win64_drops_32_among_several (windows64 []) None [x86; x64]
                    eq_refl eq_refl)); [simpl; lia|].
    exists x64. split; [simpl; tauto | exact mentions_x64_64].
  - apply (proj2 (@win64_drops_32_among_several (windows64 []) None [both]
                    eq_refl eq_refl)). simpl; lia.
Defined.

(** C1, as stated, fails: a lone candidate is never sniffed (line 112), so
    on 64-bit Windows a candidate that mentions "64" and "32" stays in the
    resolved list. *)
Lemma lone_candidate_keeps_32 :
  @platform (windows64 []) = "win32"
  /\ @isWin64 (windows64 []) = true
  /\ (exists u, In u [both] /\ mentions u "64")
  /\ In both (@resolveUploads (windows64 []) None [both])
  /\ mentions both "32".
Proof.
  split; [reflexivity|]. split; [reflexivity|].
  split; [exists both; split; [now left | exact mentions_both_64]|].
  split; [now left | exact mentions_both_32].
Qed.

Lemma win64_rule_witness :
  (anyUploadContainsString [both; x64] "64" = true
   /\ @resolveUploads (windows64 []) None [both; x64] = [x64]
   /\ ~ In both (@resolveUploads (windows64 []) None [both; x64]))
  /\ @resolveUploads (windows64 []) None [both] = [both].
Proof.
  split.
  - apply (proj1 (@win64_rule_drops_candidate_with_both (windows64 []) None
                    [both; x64] both eq_refl eq_refl
                    mentions_both_32 mentions_both_64));
      [simpl; lia | now left].
  - apply (proj2 (@win64_rule_drops_candidate_with_both (windows64 []) None
                    [both] both eq_refl eq_refl
                    mentions_both_32 mentions_both_64)). reflexivity.
Defined.

(** C9, as stated, fails: when the candidate that mentions both "32" and
    "64" is the only one, no rule is checked and the reactor enqueues the
    download of that very candidate. *)
Lemma lone_candidate_with_both_is_downloaded :
  @platform (windows64 [both]) = "win32"
  /\ @isWin64 (windows64 [both]) = true
  /\ mentions both "32" /\ mentions both "64"
  /\ @resolveUploads (windows64 [both]) None [both] = [both]
  /\ exists download,
       dispatched (@queueGame (windows64 [both]) emptyState install)
       = [QueueDownload download]
       /\ dl_upload download = both.
Proof.
  split; [reflexivity|]. split; [reflexivity|].
  split; [exact mentions_both_32|]. split; [exact mentions_both_64|].
  split; [reflexivity|]. eexists. split; reflexivity.
Qed.

(** C2.  The game is installed, the payload carries a password in its extra
    options, and the launch fails.  The reactor queues a history item whose
    only option, "try again", dispatches [queueGame] with the game alone:
    not the action it was handed. *)
Theorem launch_retry_forgets_extra_opts :
  exists item retry,
    dispatched (@queueGame (windows64 []) installedState withPassword)
    = [QueueHistoryItem item]
    /\ List.map ho_label (hi_options item) = [i18n "game.install.try_again"]
    /\ List.map ho_action (hi_options item) = [QueueGame retry]
    /\ p_extraOpts retry = None
    /\ p_extraOpts withPassword
       = Some {| eo_password := Some "hunter2"; eo_secret := None |}
    /\ QueueGame retry <> QueueGame withPassword.
Proof.
  eexists. eexists. repeat split. discriminate.
Qed.

End Runs.

(** ** The uploads listing *)

Section Listing.

Import Api.
Context `{Net}.

Lemma ensureArray_shape (v : value) :
  ensureArray v
  = Some (if negb (truthy v) || lengthless v then VArray [] else v).
Proof.
  destruct v as [| |b|n|s|items|fields]; try reflexivity.
  - destruct b; reflexivity.
  - unfold ensureArray; simpl. destruct (Z.eqb n 0); reflexivity.
  - unfold ensureArray; simpl. destruct s; reflexivity.
  - destruct items; reflexivity.
  - unfold ensureArray; simpl.
    destruct (truthy (default VUndefined (fields !! "length"))); reflexivity.
Qed.

Lemma ensureArray_not_nullish (v r : value) :
  ensureArray v = Some r -> nullish r = false.
Proof.
  rewrite ensureArray_shape. intros [= <-].
  destruct (negb (truthy v) || lengthless v) eqn:Hb; [reflexivity|].
  destruct v; try reflexivity; discriminate Hb.
Qed.

Lemma applyTransformers_uploads (camelBody r : gmap string value) :
  applyTransformers [("uploads", ensureArray)] camelBody = inr r ->
  exists u,
    ensureArray (default VUndefined (camelBody !! "uploads")) = Some u
    /\ r = <["uploads" := u]> camelBody.
Proof.
  simpl. destruct (ensureArray _) as [u|]; [|discriminate].
  intros [= <-]. now exists u.
Qed.

Lemma request_uploads (method path : string) (data r : gmap string value) :
  request method path data [("uploads", ensureArray)] = inr r ->
  exists resp u,
    net_request method (rootUrl ++ path) data = inr resp
    /\ ensureArray (default VUndefined (camelifyObject (body resp) !! "uploads"))
       = Some u
    /\ r = <["uploads" := u]> (camelifyObject (body resp)).
Proof.
  unfold request. destruct (net_request _ _ _) as [e|resp]; [discriminate|].
  destruct (negb _); [discriminate|]. destruct (truthy _); [discriminate|].
  intros Hr. apply applyTransformers_uploads in Hr as (u & Hu & ->).
  now exists resp, u.
Qed.

(** [ensureArray] never throws and never yields [null] or
    [undefined]: it yields the empty array for a falsy value and for a value
    without a truthy [length], and the value itself otherwise; an array is
    always passed on as it is.  [listUploads] runs it on the [uploads] field
    of the answer of either endpoint, so the listing it resolves with is
    never null. *)
Theorem uploads_listing_never_null :
  (forall v : value,
     exists r,
       ensureArray v = Some r
       /\ nullish r = false
       /\ r = (if negb (truthy v) || negb (isArray v) && lengthless v
               then VArray [] else v))
  /\ (forall items : list value, ensureArray (VArray items) = Some (VArray items))
  /\ (forall (key : string) (downloadKey : option IDownloadKey) (gameID : Z)
        (extras r : gmap string value),
        listUploads key downloadKey gameID extras = inr r ->
        exists resp u,
          net_request "get" (rootUrl ++ uploadsPath key downloadKey gameID)
            extras = inr resp
          /\ ensureArray
               (default VUndefined (camelifyObject (body resp) !! "uploads"))
             = Some u
          /\ r !! "uploads" = Some u
          /\ nullish u = false).
Proof.
  split; [|split].
  - intros v. eexists. split; [apply ensureArray_shape|].
    split; [eapply ensureArray_not_nullish, ensureArray_shape|].
    destruct v as [| |b|n|s|[|x items]|fields]; reflexivity.
  - intros [|x items]; reflexivity.
  - intros key downloadKey gameID extras r Hr.
    assert (request "get" (uploadsPath key downloadKey gameID) extras
              [("uploads", ensureArray)] = inr r) as Hreq
      by (destruct downloadKey; exact Hr).
    apply request_uploads in Hreq as (resp & u & Hnet & Hu & ->).
    exists resp, u. split; [exact Hnet|]. split; [exact Hu|].
    split; [apply lookup_insert_eq | eapply ensureArray_not_nullish, Hu].
Qed.

End Listing.

Section ListingRuns.

Import Api Scenario.

(** An absent listing, serialized by Lua as the empty object, is presented
    as the empty array, with or without a download key. *)
Lemma uploads_listing_witness :
  @listUploads (server (VObject ∅)) "key" None 7 ∅
  = inr {[ "uploads" := VArray [] ]}
  /\ @listUploads (server (VObject ∅)) "key" (Some {| dk_id := 3 |}) 7 ∅
     = inr {[ "uploads" := VArray [] ]}
  /\ exists resp u,
       @net_request (server (VObject ∅)) "get"
         (@rootUrl (server (VObject ∅)) ++ uploadsPath "key" None 7) ∅
       = inr resp
       /\ ensureArray
            (default VUndefined
               (@camelifyObject (server (VObject ∅)) (body resp) !! "uploads"))
          = Some u
       /\ ({[ "uploads" := VArray [] ]} : gmap string value) !! "uploads"
          = Some u
       /\ nullish u = false.
Proof.
  split; [reflexivity|]. split; [reflexivity|].
  exact (proj2 (proj2 (@uploads_listing_never_null (server (VObject ∅))))
           "key" None 7 ∅ {[ "uploads" := VArray [] ]} eq_refl).
Defined.

End ListingRuns.

(** ** The app-bundle scan *)

Section Bundles.

Import Configure.
Context `{FileSystem}.

Ltac no_call :=
  first [ discriminate
        | intros ?; discriminate
        | intros (? & [] & _)
        | intros ? [] ].

(** The walk stops at the first answer that decides: every answer before
    the last one is an ordinary directory, and the last one fixes the
    verdict. *)
Lemma walkElements_calls (cavePath : string) (pathElements current : list string) :
  let '(v, calls) := walkElements cavePath current pathElements in
  (forall call, In call calls -> snd call = lstat (fst call))
  /\ ((exists call, In call calls /\ asksToSkip (snd call) = true) -> v = Skip)
  /\ ((exists call, In call calls /\ fatal (snd call) = true) ->
      exists e, v = Throw e /\ fatal (inl e) = true)
  /\ (forall e, v = Throw e -> fatal (inl e) = true).
Proof.
  revert current; induction pathElements as [|element rest IH]; intros current.
  - simpl. repeat split; no_call.
  - simpl. destruct (String.eqb element "__MACOSX").
    + repeat split; no_call.
    + set (current' := (current ++ [element])%list).
      set (path := join cavePath current').
      destruct (lstat path) as [e|stats] eqn:Hstat.
      * destruct (String.eqb (code e) "ENOENT" || String.eqb (code e) "EPERM")
          eqn:Hcode.
        -- repeat split; try discriminate.
           ++ intros c [<-|[]]. now simpl.
           ++ intros (c & [<-|[]] & Hf). simpl in Hf.
              rewrite Hcode in Hf. discriminate Hf.
        -- repeat split.
           ++ intros c [<-|[]]. now simpl.
           ++ intros (c & [<-|[]] & Hs). simpl in Hs. congruence.
           ++ intros _. exists e. split; [reflexivity|]. simpl. now rewrite Hcode.
           ++ intros e' [= <-]. simpl. now rewrite Hcode.
      * destruct (isSymbolicLink stats) eqn:Hlink.
        -- repeat split; try discriminate.
           ++ intros c [<-|[]]. now simpl.
           ++ intros (c & [<-|[]] & Hf). discriminate Hf.
        -- specialize (IH current').
           destruct (walkElements cavePath current' rest) as [v calls].
           destruct IH as (Hall & Hskip & Hfatal & Hthrow).
           repeat split.
           ++ intros c [<-|Hc]; [now simpl | now apply Hall].
           ++ intros (c & [<-|Hc] & Hs); [simpl in Hs; congruence|].
              apply Hskip. now exists c.
           ++ intros (c & [<-|Hc] & Hf); [discriminate Hf|].
              apply Hfatal. now exists c.
           ++ exact Hthrow.
Qed.

Lemma meets_skip (cavePath res : string) :
  meets cavePath res asksToSkip -> fst (examine cavePath res) = Skip.
Proof.
  unfold meets, examine. intros Hm.
  pose proof (walkElements_calls cavePath (JsString.split sep res) []) as Hw.
  destruct (walkElements cavePath [] (JsString.split sep res)) as [v calls].
  now apply Hw.
Qed.

Lemma meets_fatal (cavePath res : string) :
  meets cavePath res fatal ->
  exists e, fst (examine cavePath res) = Throw e /\ fatal (inl e) = true.
Proof.
  unfold meets, examine. intros Hm.
  pose proof (walkElements_calls cavePath (JsString.split sep res) []) as Hw.
  destruct (walkElements cavePath [] (JsString.split sep res)) as [v calls].
  now apply Hw.
Qed.

Lemma examine_throw_fatal (cavePath res : string) (e : IFsError) :
  fst (examine cavePath res) = Throw e -> fatal (inl e) = true.
Proof.
  unfold examine.
  pose proof (walkElements_calls cavePath (JsString.split sep res) []) as Hw.
  destruct (walkElements cavePath [] (JsString.split sep res)) as [v calls].
  apply Hw.
Qed.

(** A scan that ends well returns the candidates it kept, in order. *)
Lemma scan_kept (cavePath : string) (globRes bundles result : list string) :
  scan cavePath globRes bundles = inr result ->
  result
  = (bundles
     ++ List.map (fun res => String.append res "/")
          (List.filter (fun res => is_Keep (fst (examine cavePath res)))
             globRes))%list.
Proof.
  revert bundles; induction globRes as [|res rest IH]; intros bundles; simpl.
  - intros [= <-]. now rewrite app_nil_r.
  - destruct (fst (examine cavePath res)); simpl; intros Hs.
    + rewrite (IH _ Hs), <- app_assoc. reflexivity.
    + now apply IH.
    + discriminate Hs.
Qed.

(** A scan that reaches a fatal candidate fails, and only ever with an
    error whose code is neither ENOENT nor EPERM. *)
Lemma scan_fails (cavePath : string) (globRes bundles : list string)
    (res : string) (e : IFsError) :
  In res globRes -> fst (examine cavePath res) = Throw e ->
  exists e', scan cavePath globRes bundles = inl e' /\ fatal (inl e') = true.
Proof.
  revert bundles; induction globRes as [|r rest IH]; intros bundles [].
  - subst r. intros Ht. simpl. rewrite Ht. exists e. split; [reflexivity|].
    eapply examine_throw_fatal; eassumption.
  - intros Ht. simpl. destruct (fst (examine cavePath r)) as [| |e0] eqn:Hr.
    + now apply IH.
    + now apply IH.
    + exists e0. split; [reflexivity|]. eapply examine_throw_fatal; eassumption.
Qed.

Lemma append_slash_inj (s t : string) :
  String.append s "/" = String.append t "/" -> s = t.
Proof.
  revert t; induction s as [|a s IH]; intros [|b t]; simpl; intros Heq.
  - reflexivity.
  - injection Heq as _ Heq. destruct t; discriminate Heq.
  - injection Heq as _ Heq. destruct s; discriminate Heq.
  - injection Heq as -> Heq. f_equal. now apply IH.
Qed.

(** Every [lstat] call of a walk asks about the path of a non-empty prefix
    of the elements. *)
Lemma walkElements_paths (cavePath : string) (pathElements current : list string)
    (call : string * (IFsError + IStats)) :
  In call (snd (walkElements cavePath current pathElements)) ->
  exists k, (0 < k <= List.length pathElements)%nat
            /\ fst call = join cavePath (current ++ firstn k pathElements).
Proof.
  revert current; induction pathElements as [|element rest IH];
    intros current; simpl; [intros []|].
  destruct (String.eqb element "__MACOSX"); [intros []|].
  assert (forall answer : IFsError + IStats,
            exists k, (0 < k <= S (List.length rest))%nat
              /\ fst (join cavePath (current ++ [element]), answer)
                 = join cavePath (current ++ firstn k (element :: rest)))
    as Hhead by (intros answer; exists 1%nat; split; [lia | reflexivity]).
  destruct (lstat (join cavePath (current ++ [element]))) as [e|stats].
  - destruct (_ || _); intros [<-|[]]; apply Hhead.
  - destruct (isSymbolicLink stats); [intros [<-|[]]; apply Hhead|].
    specialize (IH (current ++ [element])%list).
    destruct (walkElements cavePath (current ++ [element]) rest) as [v calls].
    intros [<-|Hc]; [apply Hhead|].
    destruct (IH Hc) as (k & Hk & Hpath). exists (S k). split; [lia|].
    rewrite Hpath, <- app_assoc. reflexivity.
Qed.

(** The scan, read on the [lstat] calls it makes.  When, walking along a
    candidate, an [lstat] call finds a symbolic link or fails with ENOENT or
    EPERM, the candidate is skipped: the scan goes on with the next one as
    if the candidate were not there, and the candidate is not among the
    bundles of a scan that ends well.  When an [lstat] call fails with any
    other code, [configure] fails, with an error of such a code. *)
Theorem bundle_scan_skips_or_fails (cavePath : string) (globRes : list string) :
  glob "**/*.app/" cavePath = inr globRes ->
  (forall res, In res globRes -> meets cavePath res asksToSkip ->
     fst (examine cavePath res) = Skip
     /\ (forall rest bundles,
           scan cavePath (res :: rest) bundles = scan cavePath rest bundles)
     /\ (forall bundles, scan cavePath globRes [] = inr bundles ->
           ~ In (String.append res "/") bundles))
  /\ (forall res, In res globRes -> meets cavePath res fatal ->
       exists e, configure cavePath = inl e /\ fatal (inl e) = true).
Proof.
  intros Hglob. split.
  - intros res Hin Hmeets. pose proof (meets_skip _ _ Hmeets) as Hskip.
    split; [exact Hskip|]. split.
    + intros rest bundles. simpl. now rewrite Hskip.
    + intros bundles Hscan Hbundle. apply scan_kept in Hscan. subst bundles.
      simpl in Hbundle. apply in_map_iff in Hbundle as (res' & Heq & Hkept).
      apply append_slash_inj in Heq. subst res'.
      apply filter_In in Hkept as [_ Hkeep]. rewrite Hskip in Hkeep.
      discriminate Hkeep.
  - intros res Hin Hmeets. destruct (meets_fatal _ _ Hmeets) as (e & Hthrow & _).
    destruct (scan_fails cavePath globRes [] res e Hin Hthrow)
      as (e' & Hscan & Hfatal).
    exists e'. split; [|exact Hfatal].
    unfold configure. now rewrite Hglob, Hscan.
Qed.

End Bundles.

Section BundleRuns.

Import Configure Scenario.

Lemma meets_link : @meets (folder []) "cave" "Link.app/" asksToSkip.
Proof.
  exists ("cave/Link.app", inr {| isSymbolicLink := true |}).
  split; [now left | reflexivity].
Qed.

(** A plain bundle, a symbolic link and a bundle that has vanished: the
    plain bundle is the only executable. *)
Lemma bundle_scan_witness :
  @configure (folder ["Game.app/"; "Link.app/"; "Gone.app/"]) "cave"
  = inr {| executables := ["Game.app//"] |}
  /\ @examine (folder ["Game.app/"; "Link.app/"; "Gone.app/"]) "cave" "Link.app/"
     = (Skip, [("cave/Link.app", inr {| isSymbolicLink := true |})])
  /\ forall bundles,
       @scan (folder ["Game.app/"; "Link.app/"; "Gone.app/"]) "cave"
         ["Game.app/"; "Link.app/"; "Gone.app/"] [] = inr bundles ->
       ~ In "Link.app//" bundles.
Proof.
  split; [reflexivity|]. split; [reflexivity|].
  apply (proj1 (@bundle_scan_skips_or_fails
                  (folder ["Game.app/"; "Link.app/"; "Gone.app/"]) "cave"
                  ["Game.app/"; "Link.app/"; "Gone.app/"] eq_refl)
           "Link.app/"); [simpl; tauto | exact meets_link].
Defined.

(** A bundle whose [lstat] fails with EACCES makes [configure] fail with
    that error, although the bundle before it was fine. *)
Lemma locked_bundle_fails_configure :
  @configure (folder ["Game.app/"; "Locked.app/"; "Link.app/"]) "cave"
  = inl {| code := "EACCES" |}.
Proof. reflexivity. Qed.

End BundleRuns.

(** * Part III: more of what the programs do *)

(** ** Sniffing, on every host *)

Section SniffingMore.

Import JsString QueueGame.
Context `{Collaborators}.

Lemma filter_is_sublist {A : Type} (f : A -> bool) (l : list A) :
  sublist (List.filter f l) l.
Proof.
  induction l as [|a l IH]; simpl; [constructor|].
  destruct (f a); now constructor.
Qed.

Lemma filter_empty {A : Type} (f : A -> bool) (l : list A) :
  List.filter f l = [] <-> forall x, In x l -> f x = false.
Proof.
  induction l as [|a l IH]; simpl.
  - split; [intros _ x [] | reflexivity].
  - destruct (f a) eqn:Ha.
    + split; [discriminate|]. intros Hall.
      specialize (Hall a (or_introl eq_refl)). congruence.
    + rewrite IH. split.
      * intros Hall x [<-|Hx]; [assumption | now apply Hall].
      * intros Hall x Hx. apply Hall. now right.
Qed.

Lemma anyUploadContainsString_false (l : list IUploadRecord) (needle : string) :
  anyUploadContainsString l needle = false
  <-> forall u, In u l -> ~ mentions u needle.
Proof.
  split.
  - intros Hany u Hu Hm.
    assert (anyUploadContainsString l needle = true) as Ht
      by (apply anyUploadContainsString_In; eauto).
    congruence.
  - intros Hall. destruct (anyUploadContainsString l needle) eqn:Hany;
      [|reflexivity].
    apply anyUploadContainsString_In in Hany as (u & Hu & Hm).
    now destruct (Hall u Hu).
Qed.

(** On 32-bit Windows, with several candidates of which one mentions "32",
    the resolved list is the candidates that do not mention "64", in their
    order. *)
Theorem win32_drops_64_among_several (pickedUpload : option Z)
    (ups : list IUploadRecord) :
  platform = "win32" -> isWin64 = false ->
  let candidates := pickUpload pickedUpload ups in
  (1 < List.length candidates)%nat ->
  (exists u, In u candidates /\ mentions u "32") ->
  resolveUploads pickedUpload ups
  = List.filter (fun u => negb (uploadContainsString u "64")) candidates
  /\ (forall u, In u (resolveUploads pickedUpload ups) -> ~ mentions u "64")
  /\ (forall u, In u candidates -> ~ mentions u "64" ->
        In u (resolveUploads pickedUpload ups)).
Proof.
  intros Hp Hw candidates Hlen Hex.
  assert (resolveUploads pickedUpload ups
          = List.filter (fun u => negb (uploadContainsString u "64"))
              candidates) as Heq.
  { unfold resolveUploads, sniffPlatforms. fold candidates. rewrite Hp, Hw.
    replace (Z.ltb 1 (Z.of_nat (List.length candidates))) with true
      by (symmetry; apply Z.ltb_lt; lia).
    apply anyUploadContainsString_In in Hex. now rewrite Hex. }
  split; [exact Heq|]. rewrite Heq. split; intros u.
  - rewrite filter_In, negb_true_iff, uploadContainsString_false. tauto.
  - intros Hin Hno. rewrite filter_In, negb_true_iff,
      uploadContainsString_false. tauto.
Qed.

(** Sniffing changes nothing off Windows, with at most one candidate, on
    64-bit Windows when no candidate mentions "64", and on 32-bit Windows
    when no candidate mentions "32". *)
Theorem sniffing_leaves_ties (candidates : list IUploadRecord) :
  platform <> "win32"
  \/ (List.length candidates <= 1)%nat
  \/ (isWin64 = true /\ forall u, In u candidates -> ~ mentions u "64")
  \/ (isWin64 = false /\ forall u, In u candidates -> ~ mentions u "32") ->
  sniffPlatforms candidates = candidates.
Proof.
  unfold sniffPlatforms. intros [Hp|[Hlen|[[Hw Hnone]|[Hw Hnone]]]].
  - apply String.eqb_neq in Hp. rewrite Hp, andb_false_r. reflexivity.
  - now apply sniffPlatforms_short.
  - apply anyUploadContainsString_false in Hnone. rewrite Hw, Hnone.
    now destruct (_ && _).
  - apply anyUploadContainsString_false in Hnone. rewrite Hw, Hnone.
    now destruct (_ && _).
Qed.

(** The resolved list is a sublist of the uploads found: the reactor never
    invents, repeats or reorders a candidate. *)
Theorem resolved_is_sublist (pickedUpload : option Z)
    (ups : list IUploadRecord) :
  sublist (resolveUploads pickedUpload ups) ups.
Proof.
  unfold resolveUploads. transitivity (pickUpload pickedUpload ups).
  - unfold sniffPlatforms.
    repeat match goal with |- context [if ?b then _ else _] => destruct b end;
      try reflexivity; apply filter_is_sublist.
  - unfold pickUpload. destruct pickedUpload as [picked|]; [|reflexivity].
    destruct (negb _); [apply filter_is_sublist | reflexivity].
Qed.

(** Sniffing empties a list of candidates in one case only: on Windows,
    with several candidates, when one mentions the host's width and all
    mention the other. *)
Theorem sniffing_empties_iff (candidates : list IUploadRecord) :
  sniffPlatforms candidates = []
  <-> candidates = []
      \/ (platform = "win32" /\ (1 < List.length candidates)%nat
          /\ ((isWin64 = true
               /\ (exists u, In u candidates /\ mentions u "64")
               /\ forall u, In u candidates -> mentions u "32")
              \/ (isWin64 = false
                  /\ (exists u, In u candidates /\ mentions u "32")
                  /\ forall u, In u candidates -> mentions u "64"))).
Proof.
  assert (forall needle,
            (forall u, In u candidates ->
                       negb (uploadContainsString u needle) = false)
            <-> (forall u, In u candidates -> mentions u needle)) as Hall.
  { intros needle. split; intros Hyp u Hu.
    - apply uploadContainsString_mentions. specialize (Hyp u Hu).
      now apply negb_false_iff in Hyp.
    - apply negb_false_iff, uploadContainsString_mentions. now apply Hyp. }
  unfold sniffPlatforms.
  destruct (Z.ltb 1 (Z.of_nat (List.length candidates))) eqn:Hlen.
  - apply Z.ltb_lt in Hlen.
    assert (candidates <> []) as Hne by (intros ->; simpl in Hlen; lia).
    destruct (String.eqb_spec platform "win32") as [Hp|Hp]; simpl.
    + destruct isWin64.
      * destruct (anyUploadContainsString candidates "64") eqn:Hany.
        -- rewrite filter_empty, Hall. apply anyUploadContainsString_In in Hany.
           split; [intros H32; right; split; [exact Hp|]; split; [lia|];
                   left; auto|].
           intros [?|(_ & _ & [(_ & _ & ?)|(? & _)])];
             [contradiction | assumption | discriminate].
        -- split; [contradiction|].
           intros [?|(_ & _ & [(_ & Hex & _)|(? & _)])];
             [contradiction | | discriminate].
           apply anyUploadContainsString_In in Hex. congruence.
      * destruct (anyUploadContainsString candidates "32") eqn:Hany.
        -- rewrite filter_empty, Hall. apply anyUploadContainsString_In in Hany.
           split; [intros H64; right; split; [exact Hp|]; split; [lia|];
                   right; auto|].
           intros [?|(_ & _ & [(? & _)|(_ & _ & ?)])];
             [contradiction | discriminate | assumption].
        -- split; [contradiction|].
           intros [?|(_ & _ & [(? & _)|(_ & Hex & _)])];
             [contradiction | discriminate |].
           apply anyUploadContainsString_In in Hex. congruence.
    + split; [contradiction|].
      intros [?|(? & _)]; contradiction.
  - apply Z.ltb_ge in Hlen. simpl. split; [now left|].
    intros [?|(_ & ? & _)]; [assumption | lia].
Qed.

End SniffingMore.

(** ** The reactor, on every run *)

Section ReactorMore.

Import JsString QueueGame.
Context `{Collaborators}.

(** When the find-upload task fails, the reactor dispatches one action: a
    modal that shows the error and whose "try again" button carries the
    action the reactor was handed.  Nothing is enqueued and no upload is
    offered. *)
Theorem find_upload_failure_offers_retry (state : IState)
    (payload : IQueueGamePayload) (e : ITaskError) :
  cavesByGameId state !! game_id (p_game payload) = None ->
  err (task_outcome (findUploadTask state payload)) = Some e ->
  exists modal,
    dispatched (queueGame state payload) = [OpenModal modal]
    /\ i18n_vars (modal_message modal) = [("message", ArgError e)]
    /\ modal_buttons modal
       = [ ActionButton (i18n "game.install.try_again") "repeat"
             (QueueGame payload);
           NamedButton "ok" ]
    /\ modal_bigButtons modal = []
    /\ started (queueGame state payload) = [findUploadTask state payload].
Proof.
  intros Hcave Herr.
  rewrite (queueGame_find_upload_failed state payload e Hcave Herr).
  eexists. repeat split.
Qed.

(** Whatever the store, the payload and the collaborators, a run of the
    reactor starts exactly one task and dispatches at most one action; a run
    that throws dispatches none. *)
Theorem one_task_one_action_at_most (state : IState)
    (payload : IQueueGamePayload) :
  List.length (started (queueGame state payload)) = 1%nat
  /\ (List.length (dispatched (queueGame state payload)) <= 1)%nat
  /\ (returned (queueGame state payload) = None ->
      dispatched (queueGame state payload) = []).
Proof.
  unfold queueGame.
  destruct (cavesByGameId state !! game_id (p_game payload)) as [cave|].
  - unfold startCave, startTask, mbind, reactor_bind.
    destruct (err (task_outcome _)); simpl; repeat split; (lia || discriminate).
  - destruct (credentials state payload) as [password secret].
    unfold startTask, mbind, reactor_bind.
    destruct (err (task_outcome _)); [simpl; repeat split; (lia || discriminate)|].
    destruct (result (task_outcome _)) as [found|];
      [|simpl; repeat split; (lia || reflexivity)].
    destruct (Z.ltb 0 _); [|simpl; repeat split; (lia || discriminate)].
    destruct (Z.ltb 1 _); [simpl; repeat split; (lia || discriminate)|].
    destruct (resolveUploads _ _);
      simpl; repeat split; (lia || discriminate || reflexivity).
Qed.

Lemma indexOf_zero_prefix (s needle : string) :
  indexOf s needle = 0 -> String.prefix needle s = true.
Proof.
  unfold indexOf. destruct s as [|b s]; simpl.
  - destruct needle; [reflexivity | discriminate].
  - destruct needle as [|a needle]; [reflexivity|]. simpl.
    destruct (Ascii.ascii_dec a b); [destruct (String.prefix needle s)|];
      try reflexivity;
      destruct (String.index 0 (String a needle) s); intros Hz;
      try discriminate Hz; lia.
Qed.

Lemma ofNumber_head (n : Z) :
  exists c s, ofNumber n = String c s /\ c <> "$"%char.
Proof.
  unfold ofNumber. destruct n as [|p|p]; simpl.
  - eexists _, _. split; [reflexivity | discriminate].
  - destruct (Pos.to_uint p); eexists _, _; (split; [reflexivity | discriminate]).
  - eexists _, _. split; [reflexivity | discriminate].
Qed.

(** The path of a game page does not start with [pathStart]. *)
Lemma game_path_is_skipped (n : Z) (rest : string) :
  Z.eqb (indexOf ("games/" ++ ofNumber n ++ rest) pathStart) 0 = false.
Proof.
  apply Z.eqb_neq. intros Hz. apply indexOf_zero_prefix in Hz.
  apply prefix_app in Hz as [post Hpost].
  destruct (ofNumber_head n) as (c & s & Hn & Hc). rewrite Hn in Hpost.
  unfold pathStart in Hpost. simpl in Hpost.
  injection Hpost; intros; congruence.
Qed.

Lemma scanTabs_skipping (tabs : list (string * ITabData))
    (password secret : option string) :
  (forall tab acc, In tab tabs -> scanTab acc tab = acc) ->
  scanTabs tabs password secret = (password, secret).
Proof.
  unfold scanTabs. generalize (password, secret).
  induction tabs as [|tab tabs IH]; intros acc Hskip; simpl; [reflexivity|].
  rewrite Hskip by now left. apply IH. intros t a Ht. apply Hskip. now right.
Qed.

(** Line 68 compares the path of a tab with the literal text
    [games/${game.id}].  So when every open tab shows a game page, at
    [games/<id>...] for a number [<id>], no tab is read: the find-upload
    task gets the password and the secret of [extraOpts], whatever the
    query strings of the tabs hold. *)
Theorem game_tabs_are_never_read (state : IState) (payload : IQueueGamePayload) :
  (forall id data, In (id, data) (tabData state) ->
     tab_path data = None
     \/ exists n rest, tab_path data = Some ("games/" ++ ofNumber n ++ rest)) ->
  let extraOpts := default noExtraOpts (p_extraOpts payload) in
  credentials state payload = (eo_password extraOpts, eo_secret extraOpts)
  /\ findUploadTask state payload
     = FindUploadTask (game_id (p_game payload)) (p_game payload)
         (eo_password extraOpts) (eo_secret extraOpts).
Proof.
  intros Htabs extraOpts.
  assert (credentials state payload
          = (eo_password extraOpts, eo_secret extraOpts)) as Hcred.
  { unfold credentials. apply scanTabs_skipping.
    intros [id data] [password secret] Hin. unfold scanTab. simpl.
    destruct (Htabs id data Hin) as [Hnone|(n & rest & Hpath)].
    - now rewrite Hnone.
    - rewrite Hpath. simpl default.
      now rewrite game_path_is_skipped, andb_false_r. }
  split; [exact Hcred|]. unfold findUploadTask. now rewrite Hcred.
Qed.

Lemma scanTab_secret_kept (acc : option string * option string)
    (tab : string * ITabData) :
  (forall p, tab_path (snd tab) = Some p -> indexOf p pathStart = 0 ->
             truthy (q_secret (parseQuery p)) = false) ->
  snd (scanTab acc tab) = snd acc.
Proof.
  intros Hquiet. destruct acc as [password secret]. unfold scanTab.
  destruct (tab_path (snd tab)) as [p|] eqn:Hp; [|reflexivity]. simpl default.
  destruct (truthy (Some p)); [|reflexivity]. simpl andb.
  destruct (Z.eqb_spec (indexOf p pathStart) 0) as [Hz|]; [|reflexivity].
  simpl. now rewrite (Hquiet p eq_refl Hz).
Qed.

(** Among the tabs whose path starts with [pathStart] and whose query holds
    a truthy secret, the last one decides: its secret is the one handed to
    the find-upload task. *)
Theorem last_matching_tab_gives_secret (state : IState)
    (payload : IQueueGamePayload) (pre post : list (string * ITabData))
    (id : string) (data : ITabData) (p : string) :
  tabData state = (pre ++ (id, data) :: post)%list ->
  tab_path data = Some p ->
  indexOf p pathStart = 0 ->
  truthy (q_secret (parseQuery p)) = true ->
  (forall tab p', In tab post -> tab_path (snd tab) = Some p' ->
     indexOf p' pathStart = 0 -> truthy (q_secret (parseQuery p')) = false) ->
  snd (credentials state payload) = q_secret (parseQuery p)
  /\ exists password,
       findUploadTask state payload
       = FindUploadTask (game_id (p_game payload)) (p_game payload) password
           (q_secret (parseQuery p)).
Proof.
  intros Htabs Hp Hz Hsecret Hquiet.
  assert (snd (credentials state payload) = q_secret (parseQuery p)) as Hsnd.
  { unfold credentials, scanTabs. rewrite Htabs, fold_left_app. simpl.
    set (acc := fold_left scanTab pre _).
    assert (snd (scanTab acc (id, data)) = q_secret (parseQuery p)) as Hhere.
    { destruct acc as [password secret]. unfold scanTab. simpl.
      rewrite Hp. simpl default.
      assert (truthy (Some p) = true) as ->
        by (destruct p; [discriminate Hz | reflexivity]).
      rewrite Hz. simpl. now rewrite Hsecret. }
    revert Hhere. generalize (scanTab acc (id, data)). clear - Hquiet.
    induction post as [|tab post IH]; intros acc Hacc; simpl; [exact Hacc|].
    apply IH.
    - intros t p' Ht. apply Hquiet. now right.
    - rewrite scanTab_secret_kept; [exact Hacc|].
      intros p' Hp' Hz'. apply (Hquiet tab p'); [now left | assumption..]. }
  split; [exact Hsnd|]. unfold findUploadTask.
  destruct (credentials state payload) as [password secret]. simpl in Hsnd.
  subst secret. now exists password.
Qed.

Lemma filter_unique {A : Type} (f : A -> Z) (l : list A) (u : A) :
  NoDup (List.map f l) -> In u l ->
  List.filter (fun x => Z.eqb (f x) (f u)) l = [u].
Proof.
  induction l as [|a l IH]; simpl; [intros _ []|].
  intros Hnd Hin. inversion Hnd as [|? ? Ha Hnd']; subst.
  assert (forall x, In x l -> f x <> f a) as Hfresh.
  { intros x Hx Heq. apply Ha. rewrite <- Heq. now apply in_map. }
  destruct Hin as [->|Hin].
  - rewrite Z.eqb_refl. f_equal. apply filter_empty.
    intros x Hx. now apply Z.eqb_neq, Hfresh.
  - replace (Z.eqb (f a) (f u)) with false
      by (symmetry; apply Z.eqb_neq; intros Heq; now apply (Hfresh u Hin)).
    now apply IH.
Qed.

(** From the prompt to the download.  Take an upload of the listing with a
    non-zero id, in a listing whose ids are all different.  The action of
    its pick button, handled in the same store, asks for the same
    find-upload task and, with the same answer, enqueues the download of
    that upload, marked as hand-picked: a picked upload is not sniffed. *)
Theorem picking_a_candidate_downloads_it (state : IState)
    (payload : IQueueGamePayload) (found : IFindUploadResult)
    (u : IUploadRecord) :
  cavesByGameId state !! game_id (p_game payload) = None ->
  err (task_outcome (findUploadTask state payload)) = None ->
  result (task_outcome (findUploadTask state payload)) = Some found ->
  NoDup (List.map upload_id (uploads found)) ->
  In u (uploads found) ->
  upload_id u <> 0 ->
  exists picked,
    bb_action (pickButton payload (fst (credentials state payload))
                 (snd (credentials state payload)) u)
    = QueueGame picked
    /\ findUploadTask state picked = findUploadTask state payload
    /\ exists download,
         dispatched (queueGame state picked) = [QueueDownload download]
         /\ dl_upload download = u
         /\ dl_handPicked download = true.
Proof.
  intros Hcave Herr Hres Hnd Hin Hnz. eexists. split; [reflexivity|].
  set (picked := {| p_game := p_game payload |}).
  assert (findUploadTask state picked = findUploadTask state payload) as Htask
    by reflexivity.
  split; [exact Htask|].
  assert (resolveUploads (p_pickedUpload picked) (uploads found) = [u]) as Hone.
  { unfold resolveUploads. simpl. unfold pickUpload.
    replace (Z.eqb (upload_id u) 0) with false
      by (symmetry; now apply Z.eqb_neq).
    simpl. rewrite (filter_unique upload_id _ u Hnd Hin).
    apply sniffPlatforms_short. simpl; lia. }
  rewrite <- Htask in Herr, Hres.
  pose proof (queueGame_resolved state picked found Hcave Herr Hres) as Hrun.
  cbv zeta in Hrun. rewrite Hone in Hrun. rewrite Hrun.
  eexists. repeat split.
Qed.

End ReactorMore.

(** ** The client, on every endpoint *)

Section ClientMore.

Import Api.
Context `{Net}.

(** [ensureArray] is idempotent: what it yields it passes on as it is. *)
Theorem ensureArray_idempotent (v : value) :
  ensureArray v ≫= ensureArray = ensureArray v.
Proof.
  rewrite ensureArray_shape. simpl.
  destruct (negb (truthy v) || lengthless v) eqn:Hb; [reflexivity|].
  rewrite ensureArray_shape, Hb. reflexivity.
Qed.

Lemma ensureArray_again (v u : value) :
  ensureArray v = Some u -> ensureArray u = Some u.
Proof.
  intros Hu. rewrite ensureArray_shape in Hu. injection Hu as <-.
  destruct (negb (truthy v) || lengthless v) eqn:Hb; [reflexivity|].
  rewrite ensureArray_shape, Hb. reflexivity.
Qed.

(** The loop over transformers that are all [ensureArray]. *)
Lemma applyTransformers_ensureArray (keys : list string)
    (camelBody : gmap string value) :
  exists r,
    applyTransformers (List.map (fun k => (k, ensureArray)) keys) camelBody
    = inr r
    /\ (forall k, In k keys ->
          exists u, r !! k = Some u
                    /\ ensureArray (default VUndefined (camelBody !! k)) = Some u)
    /\ (forall k, ~ In k keys -> r !! k = camelBody !! k).
Proof.
  revert camelBody; induction keys as [|key keys IH]; intros camelBody; simpl.
  - exists camelBody. split; [reflexivity|]. split; [intros k []|reflexivity].
  - pose proof (ensureArray_shape (default VUndefined (camelBody !! key))) as Hu.
    rewrite Hu.
    set (u := if negb (truthy (default VUndefined (camelBody !! key)))
                 || lengthless (default VUndefined (camelBody !! key))
              then VArray [] else default VUndefined (camelBody !! key)) in *.
    destruct (IH (<[key := u]> camelBody)) as (r & Hr & Hin & Hout).
    exists r. split; [exact Hr|]. split.
    + assert (forall k, In k keys ->
                exists u', r !! k = Some u'
                  /\ ensureArray (default VUndefined (camelBody !! k)) = Some u')
        as Htail.
      { intros k Hk. destruct (Hin k Hk) as (u' & Hlook & Hens).
        exists u'. split; [exact Hlook|].
        destruct (String.eqb_spec key k) as [<-|Hne].
        - rewrite lookup_insert_eq in Hens. simpl in Hens.
          rewrite (ensureArray_again _ _ Hu) in Hens. congruence.
        - now rewrite lookup_insert_ne in Hens. }
      intros k [<-|Hk]; [|now apply Htail].
      destruct (in_dec String.string_dec key keys) as [Hk|Hk];
        [now apply Htail|].
      exists u. split; [|exact Hu]. rewrite (Hout key Hk).
      apply lookup_insert_eq.
    + intros k Hk. rewrite Hout by tauto.
      apply lookup_insert_ne. tauto.
Qed.

(** Take a request whose transformers are all [ensureArray], as on every
    endpoint of the file that has transformers.  When the server answers
    200 without errors, the request returns: every listed field of the
    result is there, even if the answer lacked it, and is neither [null]
    nor [undefined]; every other field is as [camelifyObject] left it. *)
Theorem request_ensures_arrays (method path : string)
    (data : gmap string value) (keys : list string) (resp : response) :
  net_request method (rootUrl ++ path) data = inr resp ->
  statusCode resp = 200 ->
  truthy (default VUndefined (body resp !! "errors")) = false ->
  exists r,
    request method path data (List.map (fun k => (k, ensureArray)) keys)
    = inr r
    /\ (forall k, In k keys ->
          exists u,
            r !! k = Some u /\ nullish u = false
            /\ ensureArray
                 (default VUndefined (camelifyObject (body resp) !! k))
               = Some u)
    /\ (forall k, ~ In k keys -> r !! k = camelifyObject (body resp) !! k).
Proof.
  intros Hnet Hstatus Herrors. unfold request.
  rewrite Hnet, Hstatus, Herrors. simpl.
  destruct (applyTransformers_ensureArray keys (camelifyObject (body resp)))
    as (r & Hr & Hin & Hout).
  exists r. split; [exact Hr|]. split; [|exact Hout].
  intros k Hk. destruct (Hin k Hk) as (u & Hlook & Hens).
  exists u. split; [exact Hlook|]. split; [|exact Hens].
  eapply ensureArray_not_nullish, Hens.
Qed.

(** How [listUploads] fails.  A failure of the network is passed on.  An
    answer whose status is not 200 is an HTTP error that carries the status
    and the path asked for, API key included, whatever the body holds.  An
    answer of status 200 whose [errors] field is an array, even an empty
    one, is an API error with those errors.  An answer of status 200 whose
    [errors] field is truthy without being an array is a [TypeError]: the
    constructor of [ApiError] cannot join it. *)
Theorem listUploads_failures (key : string) (downloadKey : option IDownloadKey)
    (gameID : Z) (extras : gmap string value) :
  let path := uploadsPath key downloadKey gameID in
  JsString.contains_substring path key
  /\ (forall e, net_request "get" (rootUrl ++ path) extras = inl e ->
        listUploads key downloadKey gameID extras = inl e)
  /\ (forall resp, net_request "get" (rootUrl ++ path) extras = inr resp ->
        statusCode resp <> 200 ->
        listUploads key downloadKey gameID extras
        = inl (HttpError (statusCode resp) path))
  /\ (forall resp items,
        net_request "get" (rootUrl ++ path) extras = inr resp ->
        statusCode resp = 200 ->
        body resp !! "errors" = Some (VArray items) ->
        listUploads key downloadKey gameID extras
        = inl (ApiError (VArray items)))
  /\ (forall resp errors,
        net_request "get" (rootUrl ++ path) extras = inr resp ->
        statusCode resp = 200 ->
        body resp !! "errors" = Some errors ->
        truthy errors = true -> isArray errors = false ->
        exists message,
          listUploads key downloadKey gameID extras = inl (TypeError message)).
Proof.
  intros path.
  assert (listUploads key downloadKey gameID extras
          = request "get" path extras [("uploads", ensureArray)]) as Hlist
    by (subst path; destruct downloadKey; reflexivity).
  rewrite Hlist. unfold request. split; [|split; [|split; [|split]]].
  - subst path. destruct downloadKey as [dk|]; simpl.
    + exists "/", ("/download-key/" ++ JsString.ofNumber (dk_id dk) ++ "/uploads").
      reflexivity.
    + exists "/", ("/game/" ++ JsString.ofNumber gameID ++ "/uploads").
      reflexivity.
  - intros e ->. reflexivity.
  - intros resp -> Hstatus. apply Z.eqb_neq in Hstatus. now rewrite Hstatus.
  - intros resp items -> Hstatus Herrors. now rewrite Hstatus, Herrors.
  - intros resp errors -> Hstatus Herrors Htruthy Harray.
    rewrite Hstatus, Herrors. simpl. rewrite Htruthy.
    unfold newApiError. rewrite Harray. eauto.
Qed.

End ClientMore.

(** ** The bundle scan, on every folder *)

Section BundlesMore.

Import Configure.
Context `{FileSystem}.

(** The directories a walk has to find for a candidate to be kept. *)
Lemma walkElements_keep (cavePath : string) (pathElements current : list string) :
  fst (walkElements cavePath current pathElements) = Keep
  <-> (forall element, In element pathElements -> element <> "__MACOSX")
      /\ (forall k, (0 < k <= List.length pathElements)%nat ->
            exists stats,
              lstat (join cavePath (current ++ firstn k pathElements))
              = inr stats
              /\ isSymbolicLink stats = false).
Proof.
  revert current; induction pathElements as [|element rest IH];
    intros current; simpl.
  - split; [|reflexivity]. intros _. split; [intros e []|]. intros k Hk; lia.
  - destruct (String.eqb_spec element "__MACOSX") as [Hmac|Hmac]; simpl.
    + split; [discriminate|]. intros [Hnone _].
      now destruct (Hnone element (or_introl eq_refl)).
    + specialize (IH (current ++ [element])%list).
      assert (forall k, ((current ++ [element]) ++ firstn k rest
                         = current ++ firstn (S k) (element :: rest))%list)
        as Happ by (intros k; now rewrite <- app_assoc).
      destruct (lstat (join cavePath (current ++ [element]))) as [e|stats]
        eqn:Hstat.
      * split; [destruct (_ || _); discriminate|]. intros [_ Hall].
        destruct (Hall 1%nat ltac:(lia)) as (stats & Hok & _).
        change (firstn 1 (element :: rest)) with [element] in Hok. congruence.
      * destruct (isSymbolicLink stats) eqn:Hlink; simpl.
        -- split; [discriminate|]. intros [_ Hall].
           destruct (Hall 1%nat ltac:(lia)) as (stats' & Hok & Hno).
           change (firstn 1 (element :: rest)) with [element] in Hok.
           congruence.
        -- destruct (walkElements cavePath (current ++ [element]) rest)
             as [v calls]. simpl in *. rewrite IH. split.
           ++ intros [Hnone Hall]. split.
              ** intros e [<-|He]; [exact Hmac | now apply Hnone].
              ** intros [|k] Hk; [lia|]. destruct k as [|k].
                 --- exists stats. now split.
                 --- simpl. rewrite <- Happ. apply Hall. lia.
           ++ intros [Hnone Hall]. split.
              ** intros e He. apply Hnone. now right.
              ** intros k Hk. rewrite Happ. apply (Hall (S k)). lia.
Qed.

(** A candidate is kept exactly when no element of its path is named
    [__MACOSX] and [lstat] finds every prefix of its path, none of them a
    symbolic link. *)
Theorem kept_iff_plain_path (cavePath res : string) :
  fst (examine cavePath res) = Keep
  <-> (forall element, In element (JsString.split sep res) ->
         element <> "__MACOSX")
      /\ (forall k, (0 < k <= List.length (JsString.split sep res))%nat ->
            exists stats,
              lstat (join cavePath (firstn k (JsString.split sep res)))
              = inr stats
              /\ isSymbolicLink stats = false).
Proof. unfold examine. apply walkElements_keep. Qed.

Lemma walkElements_count (cavePath : string) (pathElements current : list string) :
  (List.length (snd (walkElements cavePath current pathElements))
   <= List.length pathElements)%nat.
Proof.
  revert current; induction pathElements as [|element rest IH];
    intros current; simpl; [lia|].
  destruct (String.eqb element "__MACOSX"); [simpl; lia|].
  destruct (lstat _) as [e|stats].
  - destruct (_ || _); simpl; lia.
  - destruct (isSymbolicLink stats); [simpl; lia|].
    specialize (IH (current ++ [element])%list).
    destruct (walkElements cavePath (current ++ [element]) rest). simpl in *.
    lia.
Qed.

(** The walk along a candidate only ever asks [lstat] about prefixes of the
    candidate's own path below the install folder, at most once per
    element, and the answers it records are those of [lstat]. *)
Theorem examine_stats_own_path (cavePath res : string) :
  (List.length (snd (examine cavePath res))
   <= List.length (JsString.split sep res))%nat
  /\ Forall
       (fun call =>
          snd call = lstat (fst call)
          /\ exists k, (0 < k <= List.length (JsString.split sep res))%nat
                       /\ fst call
                          = join cavePath (firstn k (JsString.split sep res)))
       (snd (examine cavePath res)).
Proof.
  unfold examine. split; [apply walkElements_count|].
  apply List.Forall_forall. intros call Hcall. split.
  - pose proof (walkElements_calls cavePath (JsString.split sep res) []) as Hw.
    destruct (walkElements cavePath [] (JsString.split sep res)) as [v calls].
    now apply Hw.
  - now apply (walkElements_paths cavePath (JsString.split sep res) []).
Qed.

(** What [configure] resolves with.  If the scan kept bundles, they are the
    executables: the kept candidates in the order of the glob, each with a
    slash appended.  If it kept none, the executables are what [fixExecs]
    finds in the install folder itself. *)
Theorem configure_executables (cavePath : string) (r : IConfigureResult) :
  configure cavePath = inr r ->
  exists globRes,
    glob "**/*.app/" cavePath = inr globRes
    /\ let kept :=
         List.filter (fun res => is_Keep (fst (examine cavePath res))) globRes in
       (kept <> []
        /\ executables r = List.map (fun res => String.append res "/") kept)
       \/ (kept = []
           /\ fixExecs "macExecutable" cavePath = inr (executables r)).
Proof.
  unfold configure. destruct (glob _ _) as [e|globRes]; [discriminate|].
  destruct (scan cavePath globRes []) as [e|bundles] eqn:Hscan; [discriminate|].
  apply scan_kept in Hscan. simpl in Hscan. intros Hr.
  exists globRes. split; [reflexivity|]. cbv zeta.
  destruct (List.filter _ globRes) as [|res kept]; simpl in Hscan; subst bundles.
  - simpl in Hr. right. split; [reflexivity|].
    destruct (fixExecs "macExecutable" cavePath); [discriminate|].
    now injection Hr as <-.
  - left. split; [discriminate|]. simpl in Hr.
    destruct (fixExecs "macExecutable" (join cavePath [String.append res "/"]));
      [discriminate|].
    destruct (fixEach cavePath _); [discriminate|]. now injection Hr as <-.
Qed.

End BundlesMore.

(** ** The game grid and the collection fresco *)

Section Components.

Import GameGrid.

(** In a grid of at least one column every game has a cell of its own: the
    cell at row [i / columnCount] and column [i mod columnCount] shows game
    [i], two cells within the columns that show the same index are the same
    cell, and a cell whose index falls outside the games shows nothing. *)
Theorem every_game_has_one_cell {G : Type} (layout : ILayoutInfo G) :
  0 < columnCount layout ->
  (forall (i : nat) (game : G) (cell : ICellInfo),
     games layout !! i = Some game ->
     rowIndex cell = Z.of_nat i / columnCount layout ->
     columnIndex cell = Z.of_nat i mod columnCount layout ->
     cell_record (cellRenderer layout cell) = Some game
     /\ 0 <= columnIndex cell < columnCount layout)
  /\ (forall cell cell' : ICellInfo,
        0 <= columnIndex cell < columnCount layout ->
        0 <= columnIndex cell' < columnCount layout ->
        gameIndex layout cell = gameIndex layout cell' ->
        rowIndex cell = rowIndex cell' /\ columnIndex cell = columnIndex cell')
  /\ (forall cell : ICellInfo,
        gameIndex layout cell < 0
        \/ Z.of_nat (List.length (games layout)) <= gameIndex layout cell ->
        cell_record (cellRenderer layout cell) = None).
Proof.
  intros Hc. split; [|split].
  - intros i game cell Hgame Hrow Hcol. split.
    + unfold cellRenderer, gameIndex; simpl. rewrite Hrow, Hcol.
      rewrite Z.mul_comm, <- Z.div_mod by lia.
      unfold at_index.
      replace (Z.ltb (Z.of_nat i) 0) with false by (symmetry; apply Z.ltb_ge; lia).
      now rewrite Nat2Z.id.
    + rewrite Hcol. apply Z.mod_pos_bound. exact Hc.
  - intros cell cell' Hcol Hcol' Heq. unfold gameIndex in Heq.
    assert (rowIndex cell = rowIndex cell') as Hrow.
    { transitivity
        ((rowIndex cell * columnCount layout + columnIndex cell)
         / columnCount layout).
      - apply Z.div_unique with (r := columnIndex cell); [auto | ring].
      - rewrite Heq. symmetry.
        apply Z.div_unique with (r := columnIndex cell'); [auto | ring]. }
    split; [exact Hrow|]. rewrite Hrow in Heq. lia.
  - intros cell Hout. unfold cellRenderer; simpl. unfold at_index.
    destruct (Z.ltb_spec (gameIndex layout cell) 0) as [Hneg|Hpos];
      [reflexivity|].
    apply lookup_ge_None. lia.
Qed.

Import CollectionHubItem.

Lemma length_omap_le {A B : Type} (f : A -> option B) (l : list A) :
  (List.length (omap f l) <= List.length l)%nat.
Proof.
  induction l as [|a l IH]; simpl; [lia|].
  change (list_omap A B f l) with (omap f l).
  destruct (f a); simpl; lia.
Qed.

Lemma length_omap_all {A B : Type} (f : A -> option B) (l : list A) :
  (forall a, In a l -> is_Some (f a)) ->
  List.length (omap f l) = List.length l.
Proof.
  induction l as [|a l IH]; simpl; [reflexivity|]. intros Hall.
  change (list_omap A B f l) with (omap f l).
  destruct (Hall a (or_introl eq_refl)) as [b ->]. simpl. f_equal.
  apply IH. intros x Hx. apply Hall. now right.
Qed.

(** The fresco of a collection shows at most eight covers and never more
    than the collection counts games; it shows [min 8 itemCount] of them
    when the market knows each of the first eight games.  The count of the
    subtitle is the number of ids, known or not.  A collection without
    [gameIds] shows no cover and counts zero. *)
Theorem fresco_shows_at_most_eight (allGames : gmap Z IGameRecord)
    (collection : ICollectionRecord) :
  (List.length (cols allGames collection)
   <= Nat.min 8 (itemCount collection))%nat
  /\ ((forall gameId, In gameId (firstn 8 (default [] (gameIds collection))) ->
         is_Some (allGames !! gameId)) ->
      List.length (cols allGames collection)
      = Nat.min 8 (itemCount collection))
  /\ itemCount collection = List.length (default [] (gameIds collection))
  /\ (gameIds collection = None ->
      cols allGames collection = [] /\ itemCount collection = 0%nat).
Proof.
  unfold cols, shownGames, itemCount. rewrite length_map.
  set (ids := default [] (gameIds collection)).
  assert (List.length (List.map (fun gameId => allGames !! gameId) (take 8 ids))
          = Nat.min 8 (List.length ids)) as Hlen
    by (rewrite length_map; apply length_take).
  split; [|split; [|split]].
  - rewrite <- Hlen. apply length_omap_le.
  - intros Hall. rewrite <- Hlen. apply length_omap_all.
    intros o Ho. apply in_map_iff in Ho as (gameId & <- & Hin).
    now apply Hall.
  - reflexivity.
  - intros Hnone. subst ids. rewrite Hnone. split; reflexivity.
Qed.

End Components.

(** ** More concrete runs *)

Section MoreRuns.

Import JsString QueueGame Scenario Cases.

Lemma mentions_x86_32 : mentions x86 "32".
Proof. now apply uploadContainsString_mentions. Qed.

(** On 32-bit Windows the x64 build is the one dropped. *)
Lemma win32_drops_64_witness :
  @resolveUploads (host "win32" false []) None [x86; x64] = [x86]
  /\ (forall u, In u (@resolveUploads (host "win32" false []) None [x86; x64]) ->
        ~ mentions u "64")
  /\ (forall u, In u [x86; x64] -> ~ mentions u "64" ->
        In u (@resolveUploads (host "win32" false []) None [x86; x64])).
Proof.
  apply (@win32_drops_64_among_several (host "win32" false []) None [x86; x64]);
    [reflexivity | reflexivity | simpl; lia |].
  exists x86. split; [simpl; tauto | exact mentions_x86_32].
Defined.

(** On Linux the two builds stay, and the user is asked. *)
Lemma sniffing_leaves_ties_witness :
  @sniffPlatforms (host "linux" true []) [x86; x64] = [x86; x64].
Proof.
  apply (@sniffing_leaves_ties (host "linux" true []) [x86; x64]).
  left. discriminate.
Defined.

Lemma find_upload_failure_witness :
  exists modal,
    dispatched (@queueGame offline emptyState install) = [OpenModal modal]
    /\ i18n_vars (modal_message modal)
       = [("message",
           ArgError {| reason := None; as_string := "Error: offline" |})]
    /\ modal_buttons modal
       = [ ActionButton (i18n "game.install.try_again") "repeat"
             (QueueGame install);
           NamedButton "ok" ]
    /\ modal_bigButtons modal = []
    /\ started (@queueGame offline emptyState install)
       = [@findUploadTask offline emptyState install].
Proof.
  apply (@find_upload_failure_offers_retry offline emptyState install);
    reflexivity.
Defined.

(** A tab on the page of game 7 with a secret in its query: the secret is
    not read. *)
Lemma game_tabs_witness :
  @credentials (host "linux" false []) (browsing ["games/7?secret=s3"]) install
  = (None, None)
  /\ @findUploadTask (host "linux" false []) (browsing ["games/7?secret=s3"])
       install
     = FindUploadTask 7 game None None.
Proof.
  apply (@game_tabs_are_never_read (host "linux" false [])
           (browsing ["games/7?secret=s3"]) install).
  intros id data [[= <- <-]|[]]. right. exists 7, "?secret=s3". reflexivity.
Defined.

(** A tab whose path is the literal text is read. *)
Lemma last_matching_tab_witness :
  snd (@credentials (host "linux" false [])
         (browsing ["games/${game.id}?secret=s3"; "about"]) install)
  = Some "s3"
  /\ exists password,
       @findUploadTask (host "linux" false [])
         (browsing ["games/${game.id}?secret=s3"; "about"]) install
       = FindUploadTask 7 game password (Some "s3").
Proof.
  apply (@last_matching_tab_gives_secret (host "linux" false [])
           (browsing ["games/${game.id}?secret=s3"; "about"]) install
           [] [tab "about"] "tab:games/${game.id}?secret=s3"
           {| tab_path := Some "games/${game.id}?secret=s3" |}
           "games/${game.id}?secret=s3");
    try reflexivity.
  intros t p' [<-|[]] [= <-]. discriminate.
Defined.

Lemma picking_a_candidate_witness :
  exists picked,
    bb_action (@pickButton (host "win32" true [zipA; zipB]) install None None zipB)
    = QueueGame picked
    /\ @findUploadTask (host "win32" true [zipA; zipB]) emptyState picked
       = @findUploadTask (host "win32" true [zipA; zipB]) emptyState install
    /\ exists download,
         dispatched (@queueGame (host "win32" true [zipA; zipB]) emptyState picked)
         = [QueueDownload download]
         /\ dl_upload download = zipB
         /\ dl_handPicked download = true.
Proof.
  apply (@picking_a_candidate_downloads_it (host "win32" true [zipA; zipB])
           emptyState install (listing [zipA; zipB]) zipB);
    try reflexivity.
  - repeat constructor; simpl; intuition discriminate.
  - simpl; tauto.
  - discriminate.
Defined.

End MoreRuns.

Section MoreClientRuns.

Import Api Scenario.

(** A search whose answer has no [games] field at all. *)
Lemma request_ensures_arrays_witness :
  exists r,
    @request (server VNull) "get" "/search/games" ∅
      (List.map (fun k => (k, ensureArray)) ["games"]) = inr r
    /\ (forall k, In k ["games"] ->
          exists u, r !! k = Some u /\ nullish u = false)
    /\ r !! "uploads" = Some VNull.
Proof.
  destruct (@request_ensures_arrays (server VNull) "get" "/search/games" ∅
              ["games"]
              {| statusCode := 200; body := {[ "uploads" := VNull ]} |}
              eq_refl eq_refl eq_refl) as (r & Hr & Hin & Hout).
  exists r. split; [exact Hr|]. split.
  - intros k Hk. destruct (Hin k Hk) as (u & Hlook & Hnull & _). eauto.
  - rewrite Hout; [reflexivity|]. intros [Heq|[]]. discriminate Heq.
Defined.

End MoreClientRuns.

Section MoreBundleRuns.

Import Configure Scenario.

Lemma configure_executables_witness :
  exists globRes,
    @glob (folder ["Game.app/"; "Link.app/"; "Gone.app/"]) "**/*.app/" "cave"
    = inr globRes
    /\ let kept :=
         List.filter
           (fun res =>
              is_Keep (fst (@examine (folder ["Game.app/"; "Link.app/"; "Gone.app/"])
                              "cave" res)))
           globRes in
       (kept <> []
        /\ ["Game.app//"] = List.map (fun res => String.append res "/") kept)
       \/ (kept = []
           /\ @fixExecs (folder ["Game.app/"; "Link.app/"; "Gone.app/"])
                "macExecutable" "cave"
              = inr ["Game.app//"]).
Proof.
  apply (@configure_executables (folder ["Game.app/"; "Link.app/"; "Gone.app/"])
           "cave" {| executables := ["Game.app//"] |}).
  reflexivity.
Defined.

End MoreBundleRuns.

Section MoreComponentRuns.

Import GameGrid.

(** Five games in three columns: the fifth is in the second row, second
    column. *)
Lemma every_game_has_one_cell_witness :
  cell_record
    (cellRenderer {| columnCount := 3; games := ["a"; "b"; "c"; "d"; "e"] |}
       (cellAt 1 1))
  = Some "e"
  /\ 0 <= columnIndex (cellAt 1 1) < 3.
Proof.
  apply (proj1 (@every_game_has_one_cell string
                  {| columnCount := 3; games := ["a"; "b"; "c"; "d"; "e"] |}
                  ltac:(simpl; lia))
           4%nat "e" (cellAt 1 1)); reflexivity.
Defined.

End MoreComponentRuns.

(** ** The bundle scan, element by element *)

Section BundlesInOrder.

Import Configure.
Context `{FileSystem}.

(** Some prefix asks to skip and no prefix before it fails for good: the
    walk gives the candidate up. *)
Lemma walkElements_skip_at (cavePath : string)
    (pathElements current : list string) (k : nat) :
  (0 < k <= List.length pathElements)%nat ->
  asksToSkip (lstat (join cavePath (current ++ firstn k pathElements))) = true ->
  (forall j, (0 < j < k)%nat ->
     fatal (lstat (join cavePath (current ++ firstn j pathElements))) = false) ->
  fst (walkElements cavePath current pathElements) = Skip.
Proof.
  revert current k; induction pathElements as [|element rest IH];
    intros current k Hk Hskip Hbefore; simpl in Hk; [lia|].
  simpl. destruct (String.eqb element "__MACOSX"); [reflexivity|].
  destruct k as [|k]; [lia|].
  assert (forall j, ((current ++ [element]) ++ firstn j rest
                     = current ++ firstn (S j) (element :: rest))%list)
    as Happ by (intros j; now rewrite <- app_assoc).
  pose proof (Happ 0%nat) as Hone. rewrite app_nil_r in Hone.
  destruct k as [|k].
  - rewrite <- Hone in Hskip.
    destruct (lstat (join cavePath (current ++ [element]))) as [e|stats];
      simpl in Hskip; now rewrite Hskip.
  - specialize (Hbefore 1%nat ltac:(lia)) as Hfirst. rewrite <- Hone in Hfirst.
    destruct (lstat (join cavePath (current ++ [element]))) as [e|stats].
    + simpl in Hfirst. apply negb_false_iff in Hfirst. now rewrite Hfirst.
    + destruct (isSymbolicLink stats); [reflexivity|].
      specialize (IH (current ++ [element])%list (S k)).
      destruct (walkElements cavePath (current ++ [element]) rest) as [v calls].
      simpl. apply IH.
      * lia.
      * now rewrite Happ.
      * intros j Hj. rewrite Happ. apply Hbefore. lia.
Qed.

(** Some prefix fails for good, the prefixes before it are plain and no
    element up to it is named [__MACOSX]: the walk throws that failure. *)
Lemma walkElements_throw_at (cavePath : string)
    (pathElements current : list string) (k : nat) :
  (0 < k <= List.length pathElements)%nat ->
  fatal (lstat (join cavePath (current ++ firstn k pathElements))) = true ->
  (forall j, (0 < j < k)%nat ->
     plain (lstat (join cavePath (current ++ firstn j pathElements))) = true) ->
  (forall element, In element (firstn k pathElements) ->
     element <> "__MACOSX") ->
  exists e, fst (walkElements cavePath current pathElements) = Throw e.
Proof.
  revert current k; induction pathElements as [|element rest IH];
    intros current k Hk Hfatal Hbefore Hnames; simpl in Hk; [lia|].
  destruct k as [|k]; [lia|]. simpl.
  assert (element <> "__MACOSX") as Hname by (apply Hnames; now left).
  apply String.eqb_neq in Hname. rewrite Hname.
  assert (forall j, ((current ++ [element]) ++ firstn j rest
                     = current ++ firstn (S j) (element :: rest))%list)
    as Happ by (intros j; now rewrite <- app_assoc).
  pose proof (Happ 0%nat) as Hone. rewrite app_nil_r in Hone.
  destruct k as [|k].
  - rewrite <- Hone in Hfatal.
    destruct (lstat (join cavePath (current ++ [element]))) as [e|stats];
      [|discriminate Hfatal].
    simpl in Hfatal. apply negb_true_iff in Hfatal. rewrite Hfatal. now exists e.
  - specialize (Hbefore 1%nat ltac:(lia)) as Hfirst. rewrite <- Hone in Hfirst.
    destruct (lstat (join cavePath (current ++ [element]))) as [e|stats];
      [discriminate Hfirst|].
    simpl in Hfirst. apply negb_true_iff in Hfirst. rewrite Hfirst.
    specialize (IH (current ++ [element])%list (S k)).
    destruct (walkElements cavePath (current ++ [element]) rest) as [v calls].
    simpl. apply IH.
    + lia.
    + now rewrite Happ.
    + intros j Hj. rewrite Happ. apply Hbefore. lia.
    + intros e He. apply Hnames. now right.
Qed.

(** C8, amended.  The elements of a candidate's path are examined in
    order.  When [lstat] on some prefix of the path finds a symbolic link
    or fails with ENOENT or EPERM, and [lstat] fails with another code on
    no shorter prefix, the candidate is skipped: the scan goes on with the
    next one as if the candidate were not there, and the candidate is not
    among the bundles of a scan that ends well.  When [lstat] on some
    prefix fails with any other code, every shorter prefix is a plain entry
    and no element up to there is named [__MACOSX], [configure] fails, with
    an error of such a code. *)
Theorem bundle_skipped_or_configure_fails (cavePath : string)
    (globRes : list string) :
  glob "**/*.app/" cavePath = inr globRes ->
  (forall res k,
     In res globRes ->
     (0 < k <= List.length (JsString.split sep res))%nat ->
     asksToSkip (lstat (prefixPath cavePath res k)) = true ->
     (forall j, (0 < j < k)%nat ->
        fatal (lstat (prefixPath cavePath res j)) = false) ->
     fst (examine cavePath res) = Skip
     /\ (forall rest bundles,
           scan cavePath (res :: rest) bundles = scan cavePath rest bundles)
     /\ (forall bundles, scan cavePath globRes [] = inr bundles ->
           ~ In (String.append res "/") bundles))
  /\ (forall res k,
        In res globRes ->
        (0 < k <= List.length (JsString.split sep res))%nat ->
        fatal (lstat (prefixPath cavePath res k)) = true ->
        (forall j, (0 < j < k)%nat ->
           plain (lstat (prefixPath cavePath res j)) = true) ->
        (forall element, In element (firstn k (JsString.split sep res)) ->
           element <> "__MACOSX") ->
        exists e, configure cavePath = inl e /\ fatal (inl e) = true).
Proof.
  intros Hglob. split.
  - intros res k Hin Hk Hskip Hbefore.
    assert (fst (examine cavePath res) = Skip) as Hverdict
      by (now apply (walkElements_skip_at cavePath _ [] k)).
    split; [exact Hverdict|]. split.
    + intros rest bundles. simpl. now rewrite Hverdict.
    + intros bundles Hscan Hbundle. apply scan_kept in Hscan. subst bundles.
      simpl in Hbundle. apply in_map_iff in Hbundle as (res' & Heq & Hkept).
      apply append_slash_inj in Heq. subst res'.
      apply filter_In in Hkept as [_ Hkeep]. rewrite Hverdict in Hkeep.
      discriminate Hkeep.
  - intros res k Hin Hk Hfatal Hbefore Hnames.
    destruct (walkElements_throw_at cavePath _ [] k Hk Hfatal Hbefore Hnames)
      as (e & Hthrow).
    destruct (scan_fails cavePath globRes [] res e Hin Hthrow)
      as (e' & Hscan & Hfatal').
    exists e'. split; [|exact Hfatal'].
    unfold configure. now rewrite Hglob, Hscan.
Qed.

End BundlesInOrder.

Section BundlesInOrderRuns.

Import Configure Scenario Cases.

(** [Link.app] is a symbolic link at the first element: the candidate is
    skipped and the scan goes on to keep [Game.app]. *)
Lemma bundle_skipped_witness :
  @examine (folder ["Link.app/"; "Game.app/"]) "cave" "Link.app/"
  = (Skip, [("cave/Link.app", inr {| isSymbolicLink := true |})])
  /\ @configure (folder ["Link.app/"; "Game.app/"]) "cave"
     = inr {| executables := ["Game.app//"] |}
  /\ forall bundles,
       @scan (folder ["Link.app/"; "Game.app/"]) "cave"
         ["Link.app/"; "Game.app/"] [] = inr bundles ->
       ~ In "Link.app//" bundles.
Proof.
  split; [reflexivity|]. split; [reflexivity|].
  apply (proj1 (@bundle_skipped_or_configure_fails
                  (folder ["Link.app/"; "Game.app/"]) "cave"
                  ["Link.app/"; "Game.app/"] eq_refl)
           "Link.app/" 1%nat);
    [simpl; tauto | simpl; lia | reflexivity | intros j Hj; lia].
Defined.

(** C8, as stated, fails: [Sub/Link.app] is a symbolic link, yet the
    candidate is not skipped.  The walk asks about [Sub] first, [lstat]
    fails there with EIO, and [configure] fails although a candidate that
    would be kept follows. *)
Lemma symlink_behind_failing_directory_aborts :
  JsString.split "/" "Sub/Link.app/" = ["Sub"; "Link.app"; ""]
  /\ @lstat (flaky []) (@prefixPath (flaky []) "cave" "Sub/Link.app/" 2)
     = inr {| isSymbolicLink := true |}
  /\ @lstat (flaky []) (@prefixPath (flaky []) "cave" "Sub/Link.app/" 1)
     = inl {| code := "EIO" |}
  /\ @configure (flaky ["Sub/Link.app/"; "Game.app/"]) "cave"
     = inl {| code := "EIO" |}.
Proof. repeat split. Qed.

End BundlesInOrderRuns.

(** ** [ensureArray] on a value that is no array *)

Section NonArrays.

Import Api Scenario.

(** C7.  The docstring of [ensureArray] reads "if not an array, return the
    empty array, otherwise identity".  A non-empty string is no array, yet
    it has a truthy [length], so [ensureArray] passes it on; so it does
    with an object that has a truthy [length] field.  [listUploads] then
    resolves with an [uploads] field that is no array. *)
Theorem ensureArray_passes_non_arrays :
  isArray (VString "abc") = false
  /\ ensureArray (VString "abc") = Some (VString "abc")
  /\ isArray (VObject {[ "length" := VNumber 2 ]}) = false
  /\ ensureArray (VObject {[ "length" := VNumber 2 ]})
     = Some (VObject {[ "length" := VNumber 2 ]})
  /\ @listUploads (server (VString "abc")) "key" None 7 ∅
     = inr {[ "uploads" := VString "abc" ]}.
Proof. repeat split. Qed.

End NonArrays.
